(** * Crypto price dashboard (app.py): data preparation, filtering, aggregation

    A shallow embedding of the script [app.py].  The script is re-run from top
    to bottom on every user interaction; one such run is a render pass.  The
    table operations of pandas that the script calls are modelled on lists:
    a float64 column is a [list float] (IEEE binary64, NaN is the missing
    value), a boolean column a [list bool], a table a list of typed rows.
    The two derived columns that the specification describes by a formula
    are also written over an arithmetic, so that they can be read in exact
    arithmetic as well as in binary64.
    The widgets of Streamlit are modelled by the sequence of elements a render
    pass emits. *)

From Stdlib Require Import Reals Lra.
From Stdlib Require Import ZArith String Ascii Floats Bool Lia List Sorted Permutation.
Import ListNotations.

Local Open Scope list_scope.

(* ================================================================== *)
(** * Float64 columns *)

Section ZipWith.
Context {A B C : Type}.
Variable f : A -> B -> C.

(** Element-wise binary operation on two aligned columns. *)
Fixpoint zip_with (xs : list A) (ys : list B) : list C :=
  match xs, ys with
  | x :: xs', y :: ys' => f x y :: zip_with xs' ys'
  | _, _ => []
  end.
End ZipWith.

(** [Series.shift(1)]: every value moves one position down, the first
    position becomes NaN, the last value is dropped. *)
Definition shift (xs : list float) : list float :=
  firstn (List.length xs) (nan :: xs).

(** [Series.ffill()]: a missing value takes the last value before it that
    is not missing; missing values at the head stay. *)
Fixpoint ffill_from (last : float) (xs : list float) : list float :=
  match xs with
  | [] => []
  | x :: xs' =>
      if is_nan x then last :: ffill_from last xs' else x :: ffill_from x xs'
  end.

Definition ffill (xs : list float) : list float := ffill_from nan xs.

(** [Series.pct_change()]: the column is forward-filled (the default
    [fill_method='pad'] of pandas before 3.0), then
    [data / data.shift(1) - 1], element by element.  pandas 3.0 does not
    fill; the two agree on a column without missing values. *)
Definition pct_change (xs : list float) : list float :=
  zip_with (fun x p => (x / p - 1)%float) (ffill xs) (shift (ffill xs)).

(** No value of the column is missing. *)
Definition no_missing (xs : list float) : bool :=
  forallb (fun x => negb (is_nan x)) xs.

(** [series * k] and [series / k] for a scalar [k]. *)
Definition mul_scalar (xs : list float) (k : float) : list float :=
  map (fun x => (x * k)%float) xs.

Definition div_scalar (xs : list float) (k : float) : list float :=
  map (fun x => (x / k)%float) xs.

(* ================================================================== *)
(** * The rolling standard deviation (line 43) *)

(** The arithmetic a column is computed in.  The script runs in binary64;
    the same operations read in exact arithmetic say what the columns are
    up to rounding. *)
Record Arith := mkArith {
  num : Type;
  a_nan : num;
  a_of_nat : nat -> num;
  a_add : num -> num -> num;
  a_sub : num -> num -> num;
  a_mul : num -> num -> num;
  a_div : num -> num -> num;
  a_sqrt : num -> num;
  a_eqb : num -> num -> bool;
  a_ltb : num -> num -> bool;
  a_leb : num -> num -> bool;
  a_isinf : num -> bool
}.

(** IEEE binary64, the arithmetic of a float64 column. *)
Definition binary64 : Arith :=
  mkArith float nan (fun n => of_uint63 (Uint63.of_Z (Z.of_nat n)))
    PrimFloat.add PrimFloat.sub PrimFloat.mul PrimFloat.div PrimFloat.sqrt
    PrimFloat.eqb PrimFloat.ltb PrimFloat.leb is_infinity.

(** Exact arithmetic: the real numbers and one value that is not a number;
    a quotient by zero is not a number. *)
Definition ex_lift (f : R -> R -> R) (x y : option R) : option R :=
  match x, y with
  | Some a, Some b => Some (f a b)
  | _, _ => None
  end.

Definition ex_div (x y : option R) : option R :=
  match x, y with
  | Some a, Some b => if Req_dec_T b 0 then None else Some (a / b)%R
  | _, _ => None
  end.

Definition ex_eqb (x y : option R) : bool :=
  match x, y with
  | Some a, Some b => if Req_dec_T a b then true else false
  | _, _ => false
  end.

Definition ex_ltb (x y : option R) : bool :=
  match x, y with
  | Some a, Some b => if Rlt_dec a b then true else false
  | _, _ => false
  end.

Definition ex_leb (x y : option R) : bool :=
  match x, y with
  | Some a, Some b => if Rle_dec a b then true else false
  | _, _ => false
  end.

Definition exact_arith : Arith :=
  mkArith (option R) None (fun n => Some (INR n))
    (ex_lift Rplus) (ex_lift Rminus) (ex_lift Rmult) ex_div
    (option_map R_sqrt.sqrt) ex_eqb ex_ltb ex_leb (fun _ => false).

Section Generic.
Variable ar : Arith.
Let A := num ar.

(** [val != val]: the test for NaN. *)
Definition a_isnan (x : A) : bool := negb (a_eqb ar x x).

(** The state of the online variance of pandas ([roll_var] in
    [window/aggregations.pyx]): the count of observations, their mean, the
    sum of squared differences from the mean, the two compensation terms of
    the Kahan summation, and the length of the current run of equal
    values. *)
Record VarState := mkVar {
  nobs : A;
  mean_x : A;
  ssqdm_x : A;
  compensation_add : A;
  compensation_remove : A;
  num_consecutive_same_value : nat;
  prev_value : A
}.

(** [add_var]: a value enters the window (Welford's update); NaN is
    skipped. *)
Definition add_var (st : VarState) (val : A) : VarState :=
  if a_isnan val then st
  else
    let nobs' := a_add ar (nobs st) (a_of_nat ar 1) in
    let same' := if a_eqb ar val (prev_value st)
                 then S (num_consecutive_same_value st) else 1 in
    let prev_mean := a_sub ar (mean_x st) (compensation_add st) in
    let y := a_sub ar val (compensation_add st) in
    let t := a_sub ar y (mean_x st) in
    let compensation' := a_sub ar (a_add ar t (mean_x st)) y in
    let mean' := if a_eqb ar nobs' (a_of_nat ar 0) then a_of_nat ar 0
                 else a_add ar (mean_x st) (a_div ar t nobs') in
    let ssqdm' := a_add ar (ssqdm_x st)
                    (a_mul ar (a_sub ar val prev_mean) (a_sub ar val mean')) in
    mkVar nobs' mean' ssqdm' compensation' (compensation_remove st) same' val.

(** [remove_var]: a value leaves the window; NaN is skipped. *)
Definition remove_var (st : VarState) (val : A) : VarState :=
  if a_isnan val then st
  else
    let nobs' := a_sub ar (nobs st) (a_of_nat ar 1) in
    if a_eqb ar nobs' (a_of_nat ar 0)
    then mkVar nobs' (a_of_nat ar 0) (a_of_nat ar 0) (compensation_add st)
           (compensation_remove st) (num_consecutive_same_value st) (prev_value st)
    else
      let prev_mean := a_sub ar (mean_x st) (compensation_remove st) in
      let y := a_sub ar val (compensation_remove st) in
      let t := a_sub ar y (mean_x st) in
      let compensation' := a_sub ar (a_add ar t (mean_x st)) y in
      let mean' := a_sub ar (mean_x st) (a_div ar t nobs') in
      let ssqdm' := a_sub ar (ssqdm_x st)
                      (a_mul ar (a_sub ar val prev_mean) (a_sub ar val mean')) in
      mkVar nobs' mean' ssqdm' (compensation_add st) compensation'
        (num_consecutive_same_value st) (prev_value st).

(** [calc_var]: the variance of the window from its state, NaN with fewer
    than [minp] observations, zero on a run of equal values. *)
Definition calc_var (minp ddof : nat) (st : VarState) : A :=
  if a_leb ar (a_of_nat ar minp) (nobs st) && a_ltb ar (a_of_nat ar ddof) (nobs st)
  then
    if a_eqb ar (nobs st) (a_of_nat ar 1)
       || a_leb ar (nobs st) (a_of_nat ar (num_consecutive_same_value st))
    then a_of_nat ar 0
    else a_div ar (ssqdm_x st) (a_sub ar (nobs st) (a_of_nat ar ddof))
  else a_nan ar.

Definition init_var (v : A) : VarState :=
  mkVar (a_of_nat ar 0) (a_of_nat ar 0) (a_of_nat ar 0) (a_of_nat ar 0)
    (a_of_nat ar 0) 0 v.

(** [values[s:e]]. *)
Definition slice (values : list A) (s e : nat) : list A :=
  firstn (e - s) (skipn s values).

(** One turn of the loop of [roll_var] over the rows: the window of row [i]
    is [values[i+1-w : i+1]].  The first window is summed from an empty
    state; every later one is reached from the state of the row before by
    removing the values that left and adding the one that entered. *)
Definition roll_step (w : nat) (values : list A) (i : nat) (st : VarState) : VarState :=
  let s := S i - w in
  if Nat.eqb i 0 || Nat.leb i s
  then fold_left add_var (slice values s (S i)) (init_var (nth s values (a_nan ar)))
  else fold_left add_var (slice values i (S i))
         (fold_left remove_var (slice values (i - w) s) st).

Fixpoint roll_var_from (w minp ddof : nat) (values : list A) (k i : nat)
    (st : VarState) : list A :=
  match k with
  | O => []
  | S k' =>
      let st' := roll_step w values i st in
      calc_var minp ddof st' :: roll_var_from w minp ddof values k' (S i) st'
  end.

Definition roll_var (w minp ddof : nat) (values : list A) : list A :=
  roll_var_from w (Nat.max minp 1) ddof values (List.length values) 0
    (init_var (a_nan ar)).

(** [zsqrt]: the square root, zero on a negative variance. *)
Definition zsqrt (x : A) : A :=
  if a_ltb ar x (a_of_nat ar 0) then a_of_nat ar 0 else a_sqrt ar x.

(** [_prep_values]: an infinite value is handed to the window as NaN. *)
Definition prep_values (values : list A) : list A :=
  map (fun v => if a_isinf ar v then a_nan ar else v) values.

(** [series.rolling(w).std()]: [min_periods] defaults to the window size,
    [ddof] to 1. *)
Definition rolling_std_in (w : nat) (values : list A) : list A :=
  map zsqrt (roll_var w w 1 (prep_values values)).

(** [Series.pct_change()] in the arithmetic [ar]. *)
Fixpoint ffill_from_in (last : A) (xs : list A) : list A :=
  match xs with
  | [] => []
  | x :: xs' =>
      if a_isnan x then last :: ffill_from_in last xs'
      else x :: ffill_from_in x xs'
  end.

Definition shift_in (xs : list A) : list A :=
  firstn (List.length xs) (a_nan ar :: xs).

Definition pct_change_in (xs : list A) : list A :=
  let data := ffill_from_in (a_nan ar) xs in
  zip_with (fun x p => a_sub ar (a_div ar x p) (a_of_nat ar 1)) data (shift_in data).

Definition scale_in (xs : list A) (k : nat) : list A :=
  map (fun x => a_mul ar x (a_of_nat ar k)) xs.

(** Lines 42 and 43 as functions of the close column. *)
Definition change_pct_in (closes : list A) : list A :=
  scale_in (pct_change_in closes) 100.

Definition volatility_7d_in (closes : list A) : list A :=
  scale_in (rolling_std_in 7 (pct_change_in closes)) 100.
End Generic.

(** [series.rolling(w).std()] on a float64 column. *)
Definition rolling_std (w : nat) (xs : list float) : list float :=
  rolling_std_in binary64 w xs.

(* ================================================================== *)
(** * Strings *)

(** [str.upper()] on the ASCII letters; other bytes are left as they are. *)
Definition upper_ascii (c : ascii) : ascii :=
  let n := nat_of_ascii c in
  if (Nat.leb 97 n && Nat.leb n 122)%bool then ascii_of_nat (n - 32) else c.

Fixpoint upper (s : string) : string :=
  match s with
  | EmptyString => EmptyString
  | String c s' => String (upper_ascii c) (upper s')
  end.

(** [x in list] for strings. *)
Definition isin (x : string) (l : list string) : bool :=
  existsb (String.eqb x) l.

(** [Series.unique()]: the distinct values in order of first appearance. *)
Fixpoint unique (l : list string) : list string :=
  match l with
  | [] => []
  | x :: l' => x :: filter (fun y => negb (String.eqb x y)) (unique l')
  end.

(* ================================================================== *)
(** * Rows *)

(** A [datetime64[ns]] value: nanoseconds since the epoch. *)
Definition Timestamp := Z.

(** A calendar date: days since the epoch. *)
Definition Day := Z.

Definition ns_per_day : Z := 86400000000000.

(** [Timestamp.date()]: the date portion, time of day dropped. *)
Definition dt_date (t : Timestamp) : Day := (t / ns_per_day)%Z.

(** One row of the loaded table, after [pd.to_datetime] on [date]. *)
Record PriceRecord := mkPrice {
  coin_id : string;
  symbol : string;
  timestamp : string;
  date : Timestamp;
  open : float;
  high : float;
  low : float;
  close : float
}.

(** One row of the prepared table: the loaded row and the four derived
    columns. *)
Record DerivedRecord := mkDerived {
  price : PriceRecord;
  change_pct : float;
  volatility_7d : float;
  high_low_range : float;
  typical_price : float
}.

(** Attach four aligned columns to the rows of a table. *)
Fixpoint with_columns (df : list PriceRecord) (c v h t : list float)
  : list DerivedRecord :=
  match df, c, v, h, t with
  | r :: df', x :: c', y :: v', z :: h', u :: t' =>
      mkDerived r x y z u :: with_columns df' c' v' h' t'
  | _, _, _, _, _ => []
  end.

(** The column names of the loaded file (line 29 of the script). *)
Definition input_columns : list string :=
  ["coin_id"; "symbol"; "timestamp"; "date"; "open"; "high"; "low"; "close"]%string.

(** [df[name] = ...] on the column index: an existing column keeps its
    place, a new one is appended. *)
Definition setitem (name : string) (cols : list string) : list string :=
  if isin name cols then cols else cols ++ [name].

(** Lines 42-45: the four derived columns of a date-sorted table. *)
Definition derive (df : list PriceRecord) : list DerivedRecord :=
  let c := mul_scalar (pct_change (map close df)) 100 in
  let v := mul_scalar (rolling_std 7 (pct_change (map close df))) 100 in
  let h := zip_with PrimFloat.sub (map high df) (map low df) in
  let t := div_scalar
             (zip_with PrimFloat.add
                (zip_with PrimFloat.add (map high df) (map low df))
                (map close df)) 3 in
  with_columns df c v h t.

(** The column index after lines 40-45. *)
Definition derived_columns : list string :=
  setitem "typical_price"
    (setitem "high_low_range"
       (setitem "volatility_7d"
          (setitem "change_pct"
             (setitem "date" input_columns))))%string.

(* ================================================================== *)
(** * Filter engine (lines 67-72) *)

(** [a & b] on two aligned boolean columns. *)
Definition and_series (a b : list bool) : list bool := zip_with andb a b.

(** The date portion of a row's [date]. *)
Definition row_day (r : DerivedRecord) : Day := dt_date (date (price r)).

(** The three conditions of the mask, row by row.  [date_range] is the tuple
    the date picker returns: no, one or two dates.  Reading [date_range[0]]
    of an empty tuple raises; with one date the third condition is the
    scalar [True], broadcast over the column. *)
Definition mask (df : list DerivedRecord) (selected_coins : list string)
    (date_range : list Day) : option (list bool) :=
  match date_range with
  | [] => None
  | start :: rest =>
      let in_coins :=
        map (fun r => isin (upper (symbol (price r))) (map upper selected_coins)) df in
      let from_start := map (fun r => Z.leb start (row_day r)) df in
      let to_end :=
        match rest with
        | stop :: _ => map (fun r => Z.leb (row_day r) stop) df
        | [] => map (fun _ => true) df
        end in
      Some (and_series (and_series in_coins from_start) to_end)
  end.

(** [df[mask]]: the rows at which the mask is true, in their order. *)
Fixpoint getitem_mask {A : Type} (rows : list A) (m : list bool) : list A :=
  match rows, m with
  | r :: rows', b :: m' =>
      if b then r :: getitem_mask rows' m' else getitem_mask rows' m'
  | _, _ => []
  end.

(** [data = df[mask].copy()]. *)
Definition filter_engine (df : list DerivedRecord) (selected_coins : list string)
    (date_range : list Day) : option (list DerivedRecord) :=
  match mask df selected_coins date_range with
  | Some m => Some (getitem_mask df m)
  | None => None
  end.

(* ================================================================== *)
(** * Aggregator (line 79) *)

(** Insertion sort of the group keys by string order. *)
Fixpoint insert_key (k : string) (ks : list string) : list string :=
  match ks with
  | [] => [k]
  | k' :: ks' => if String.leb k k' then k :: ks else k' :: insert_key k ks'
  end.

Definition sort_keys (ks : list string) : list string :=
  fold_right insert_key [] ks.

(** [groupby('symbol')]: the distinct raw symbols, sorted; each group holds
    the rows of its key in table order. *)
Definition group_keys (data : list DerivedRecord) : list string :=
  sort_keys (unique (map (fun r => symbol (price r)) data)).

Definition get_group (k : string) (data : list DerivedRecord) : list DerivedRecord :=
  filter (fun r => String.eqb (symbol (price r)) k) data.

Definition groupby_symbol (data : list DerivedRecord)
  : list (string * list DerivedRecord) :=
  map (fun k => (k, get_group k data)) (group_keys data).

(** [x.iloc[-1]]: the last row; raises on an empty table. *)
Fixpoint iloc_last {A : Type} (l : list A) : option A :=
  match l with
  | [] => None
  | [x] => Some x
  | _ :: l' => iloc_last l'
  end.

(** [.apply(lambda x: x.iloc[-1])] over the groups, in key order. *)
Fixpoint apply_last (groups : list (string * list DerivedRecord))
  : option (list (string * DerivedRecord)) :=
  match groups with
  | [] => Some []
  | (k, g) :: groups' =>
      match iloc_last g, apply_last groups' with
      | Some r, Some rest => Some ((k, r) :: rest)
      | _, _ => None
      end
  end.

Definition latest (data : list DerivedRecord)
  : option (list (string * DerivedRecord)) :=
  apply_last (groupby_symbol data).

(* ================================================================== *)
(** * Export (line 160) *)

Inductive Cell :=
| CellStr (s : string)
| CellTime (t : Timestamp)
| CellNum (x : float).

(** The value of a row under a column name. *)
Definition cell (r : DerivedRecord) (name : string) : option Cell :=
  if String.eqb name "coin_id" then Some (CellStr (coin_id (price r)))
  else if String.eqb name "symbol" then Some (CellStr (symbol (price r)))
  else if String.eqb name "timestamp" then Some (CellStr (timestamp (price r)))
  else if String.eqb name "date" then Some (CellTime (date (price r)))
  else if String.eqb name "open" then Some (CellNum (open (price r)))
  else if String.eqb name "high" then Some (CellNum (high (price r)))
  else if String.eqb name "low" then Some (CellNum (low (price r)))
  else if String.eqb name "close" then Some (CellNum (close (price r)))
  else if String.eqb name "change_pct" then Some (CellNum (change_pct r))
  else if String.eqb name "volatility_7d" then Some (CellNum (volatility_7d r))
  else if String.eqb name "high_low_range" then Some (CellNum (high_low_range r))
  else if String.eqb name "typical_price" then Some (CellNum (typical_price r))
  else None.

(** A CSV document before its cells are printed: the header line and one
    record per row. *)
Record Csv := mkCsv {
  header : list string;
  records : list (list (option Cell))
}.

(** [data.to_csv(index=False)]: every column of the table, in column order,
    no index column. *)
Definition to_csv (cols : list string) (data : list DerivedRecord) : Csv :=
  mkCsv cols (map (fun r => map (cell r) cols) data).

(* ================================================================== *)
(** * Render pass *)

Inductive Figure :=
| Candlestick (name : string) (rows : list DerivedRecord)
| LineChart (y : string) (rows : list DerivedRecord)
| BarChart (y : string) (rows : list DerivedRecord).

(** What a render pass puts on the page.  Texts the script formats from
    numbers are kept as the numbers they are formatted from. *)
Inductive Element :=
| Title (text : string)
| Markdown (text : string)
| FileUploader (label : string)
| Info (text : string)
| ExceptionBox (name : string)
| Success (n_records : nat) (latest_day : Day)
| SidebarHeader (text : string)
| Multiselect (label : string) (options default : list string)
| DateInput (label : string) (value : Day * Day) (min_value max_value : Day)
| Warning (text : string)
| Columns (n : nat)
| Metric (label : string) (value delta : float)
| Subheader (text : string)
| PlotlyChart (fig : Figure)
| Dataframe (cols : list string) (rows : list DerivedRecord)
| DownloadButton (label : string) (data : Csv) (file_name mime : string)
| Caption (text : string).

Definition is_metric (e : Element) : bool :=
  match e with Metric _ _ _ => true | _ => false end.

Definition is_chart (e : Element) : bool :=
  match e with PlotlyChart _ => true | _ => false end.

Definition is_table (e : Element) : bool :=
  match e with Dataframe _ _ => true | _ => false end.

Definition is_download (e : Element) : bool :=
  match e with DownloadButton _ _ _ _ => true | _ => false end.

(** How a run of the script ends: it reaches the end, [st.stop()] ends it,
    or an exception ends it. *)
Inductive Result (A : Type) :=
| Ok (a : A)
| Stop
| Raise.

Arguments Ok {A} a.
Arguments Stop {A}.
Arguments Raise {A}.

(** A piece of the script: the elements it emits, and how it ends. *)
Definition Script (A : Type) : Type := (list Element * Result A)%type.

Definition ret {A : Type} (a : A) : Script A := ([], Ok a).

Definition bind {A B : Type} (m : Script A) (k : A -> Script B) : Script B :=
  match snd m with
  | Ok a => (fst m ++ fst (k a), snd (k a))
  | Stop => (fst m, Stop)
  | Raise => (fst m, Raise)
  end.

Definition emit (e : Element) : Script unit := ([e], Ok tt).

Definition stop {A : Type} : Script A := ([], Stop).

Definition from_option {A : Type} (o : option A) : Script A :=
  match o with
  | Some a => ([], Ok a)
  | None => ([], Raise)
  end.

Notation "x <- c ;; k" := (bind c (fun x => k))
  (at level 61, c at next level, right associativity).
Notation "c ;; k" := (bind c (fun _ => k))
  (at level 61, right associativity).

(** Lines 20-35, the body of [load_data], as it runs under
    [@st.cache_data].  [file] is the table read from [cryptodata.csv], if
    that read succeeds; [uploaded] is the table of the file the uploader
    holds, if it holds one.  For a widget called inside a cached function
    Streamlit shows its [CachedWidgetWarning] in an exception box, before
    the widget. *)
Definition load_data_body (file uploaded : option (list PriceRecord))
  : Script (list PriceRecord) :=
  match file with
  | Some df => ret df
  | None =>
      emit (ExceptionBox "CachedWidgetWarning") ;;
      emit (FileUploader "Upload your crypto data (CSV)") ;;
      match uploaded with
      | None => emit (Info "Upload your crypto_data.csv to begin") ;; stop
      | Some df => ret df
      end
  end.

(** The cache of [@st.cache_data] for [load_data], a function without
    arguments: empty, or the table a call has returned together with the
    elements of that call that are replayed when the call is skipped. *)
Definition Cache : Type := option (list PriceRecord * list Element).

Section Cached.
(** Which of the elements a call has shown are kept for replay is decided by
    Streamlit; it is left open. *)
Variable recorded : list Element -> list Element.

(** Lines 19 and 37: [load_data()] through the cache.  On a filled cache
    the body does not run: the kept elements are replayed and the stored
    table is returned.  On an empty cache the body runs, and what it returns
    is stored; a body that [st.stop()] ends returns nothing and stores
    nothing.  The spinner shown while the body runs is gone when the call
    ends; it is not an element of the page. *)
Definition load_data (cache : Cache) (file uploaded : option (list PriceRecord))
  : Script (list PriceRecord) * Cache :=
  match cache with
  | Some (df, kept) => ((kept, Ok df), cache)
  | None =>
      let call := load_data_body file uploaded in
      (call,
       match snd call with
       | Ok df => Some (df, recorded (fst call))
       | _ => None
       end)
  end.

(** Passes one after the other on one cache: what [load_data()] shows and
    returns in each of them, [inputs] giving the file and the upload of each
    pass. *)
Fixpoint load_passes (cache : Cache)
    (inputs : list (option (list PriceRecord) * option (list PriceRecord)))
  : list (Script (list PriceRecord)) :=
  match inputs with
  | [] => []
  | (file, uploaded) :: rest =>
      let r := load_data cache file uploaded in
      fst r :: load_passes (snd r) rest
  end.
End Cached.

(** [Series.max()] and [Series.min()] of a datetime column; the result of an
    empty column is [NaT], on which [strftime] and [date] raise. *)
Definition series_max (l : list Timestamp) : option Timestamp :=
  match l with
  | [] => None
  | x :: l' => Some (fold_left Z.max l' x)
  end.

Definition series_min (l : list Timestamp) : option Timestamp :=
  match l with
  | [] => None
  | x :: l' => Some (fold_left Z.min l' x)
  end.

Definition display_cols : list string :=
  ["date"; "symbol"; "open"; "high"; "low"; "close"; "change_pct"; "volatility_7d"]%string.

(** The metric card of one row of [latest]. *)
Definition card (kr : string * DerivedRecord) : Element :=
  Metric (upper (fst kr)) (close (price (snd kr))) (change_pct (snd kr)).

(** Lines 81-90: the loop over [latest.iterrows()], left at [i >= 4]. *)
Fixpoint metric_cards (i : nat) (rows : list (string * DerivedRecord))
  : Script unit :=
  match rows with
  | [] => ret tt
  | kr :: rows' =>
      if Nat.leb 4 i then ret tt
      else emit (card kr) ;; metric_cards (S i) rows'
  end.

(** Lines 96-113: one candlestick chart per uppercased symbol. *)
Definition coin_data (coin : string) (data : list DerivedRecord) : list DerivedRecord :=
  filter (fun r => String.eqb (upper (symbol (price r))) coin) data.

Fixpoint candlesticks (coins : list string) (data : list DerivedRecord)
  : Script unit :=
  match coins with
  | [] => ret tt
  | coin :: coins' =>
      emit (PlotlyChart (Candlestick coin (coin_data coin data))) ;;
      candlesticks coins' data
  end.

Section Pass.
(** [df.sort_values('date')]: pandas sorts with an unstable algorithm, so
    the order of rows with equal dates is left open. *)
Variable sort_values : list PriceRecord -> list PriceRecord.

(** Lines 37-45. *)
Definition prepare (loaded : list PriceRecord) : list DerivedRecord :=
  derive (sort_values loaded).

(** Lines 39-64: the prepared table, the success line and the two
    controls of the sidebar; yields the prepared table. *)
Definition controls (loaded : list PriceRecord) : Script (list DerivedRecord) :=
  let df := prepare loaded in
  let dates := map (fun r => date (price r)) df in
  latest_ts <- from_option (series_max dates) ;;
  emit (Success (List.length df) (dt_date latest_ts)) ;;
  emit (SidebarHeader "Filters") ;;
  let coins := unique (map (fun r => upper (symbol (price r))) df) in
  emit (Multiselect "Select Cryptocurrencies" coins (firstn 1 coins)) ;;
  min_ts <- from_option (series_min dates) ;;
  max_ts <- from_option (series_max dates) ;;
  let min_date := dt_date min_ts in
  let max_date := dt_date max_ts in
  emit (DateInput "Date Range" (min_date, max_date) min_date max_date) ;;
  ret df.

(** Lines 15-64: the page head, the loading and the sidebar.  [load] is
    what the call [load_data()] of line 37 shows and returns in this
    pass. *)
Definition sidebar (load : Script (list PriceRecord))
  : Script (list DerivedRecord) :=
  emit (Title "Crypto Price Dashboard: Top 500 Cryptocurrencies by market capitalization 2024/25") ;;
  emit (Markdown "### Real-time OHLC Analysis • Trends • Volatility • Performance") ;;
  loaded <- load ;;
  controls loaded.
End Pass.

(** Lines 66-168: filter, metrics, charts, table and download.
    [selected_coins] and [date_range] are what the two widgets return in
    this pass. *)
Definition body (df : list DerivedRecord) (selected_coins : list string)
    (date_range : list Day) : Script unit :=
  data <- from_option (filter_engine df selected_coins date_range) ;;
  match data with
  | [] => emit (Warning "No data for selected filters.") ;; stop
  | _ :: _ => ret tt
  end ;;
  latest_rows <- from_option (latest data) ;;
  emit (Columns 4) ;;
  metric_cards 0 latest_rows ;;
  emit (Markdown "---") ;;
  emit (Subheader "Candlestick Chart") ;;
  candlesticks (unique (map (fun r => upper (symbol (price r))) data)) data ;;
  emit (Subheader "Price Trend Comparison") ;;
  emit (PlotlyChart (LineChart "close" data)) ;;
  emit (Subheader "7-Day Rolling Volatility") ;;
  emit (PlotlyChart (LineChart "volatility_7d" data)) ;;
  emit (Subheader "Daily High-Low Range") ;;
  emit (PlotlyChart (BarChart "high_low_range" data)) ;;
  emit (Markdown "---") ;;
  emit (Subheader "Detailed Price Data") ;;
  emit (Dataframe display_cols data) ;;
  emit (DownloadButton "Download filtered data as CSV"
          (to_csv derived_columns data) "crypto_price_data.csv" "text/csv") ;;
  emit (Caption "Built with Streamlit • Data updates daily").

Section Run.
Variable sort_values : list PriceRecord -> list PriceRecord.

(** One run of the script, [load] being what the call [load_data()] of
    line 37 shows and returns in it. *)
Definition render_pass (load : Script (list PriceRecord))
    (selected_coins : list string) (date_range : list Day) : Script unit :=
  df <- sidebar sort_values load ;;
  body df selected_coins date_range.

(** One run of [app.py] on a cache: the page, how the run ends, and the
    cache it leaves.  [recorded] is the choice of the elements kept for
    replay. *)
Definition app_py (recorded : list Element -> list Element) (cache : Cache)
    (file uploaded : option (list PriceRecord))
    (selected_coins : list string) (date_range : list Day)
  : Script unit * Cache :=
  let call := load_data recorded cache file uploaded in
  (render_pass (fst call) selected_coins date_range, snd call).
End Run.

(** An insertion sort by [date], one instance of [sort_values]. *)
Fixpoint insert_by_date (r : PriceRecord) (l : list PriceRecord) : list PriceRecord :=
  match l with
  | [] => [r]
  | r' :: l' => if Z.leb (date r) (date r') then r :: l else r' :: insert_by_date r l'
  end.

Definition sort_by_date (l : list PriceRecord) : list PriceRecord :=
  fold_right insert_by_date [] l.

(** Ascending by a key. *)
Definition sorted_by {A : Type} (key : A -> Z) (l : list A) : Prop :=
  StronglySorted (fun a b => (key a <= key b)%Z) l.

(** The loaded table, sorted ascending by [date]. *)
Definition date_sorted (df : list PriceRecord) : Prop := sorted_by date df.

(* ================================================================== *)
(** * Vocabulary of the statements *)

(** A binary64 value that is neither NaN nor infinite, on its unpacked form. *)
Definition sf_finite (x : spec_float) : bool :=
  match x with
  | S754_zero _ | S754_finite _ _ _ => true
  | S754_infinity _ | S754_nan => false
  end.

(** [l1] is [l2] with some rows left out, the others in their order. *)
Inductive subseq {A : Type} : list A -> list A -> Prop :=
| subseq_nil : subseq [] []
| subseq_skip (x : A) (l1 l2 : list A) : subseq l1 l2 -> subseq l1 (x :: l2)
| subseq_take (x : A) (l1 l2 : list A) : subseq l1 l2 -> subseq (x :: l1) (x :: l2).

(** The selection of the filter engine as the specification words it, for a
    two-ended range: the uppercased symbol is one of the selected symbols
    (compared without regard to case) and the day lies in [[a, b]]. *)
Definition in_selection (selected : list string) (a b : Day) (r : DerivedRecord) : bool :=
  isin (upper (symbol (price r))) (map upper selected)
  && Z.leb a (row_day r) && Z.leb (row_day r) b.

(** The same for a range with a start date only. *)
Definition in_selection_from (selected : list string) (a : Day) (r : DerivedRecord) : bool :=
  isin (upper (symbol (price r))) (map upper selected) && Z.leb a (row_day r).

(** Running the filter engine on its own output. *)
Definition filter_twice (df : list DerivedRecord) (selected_coins : list string)
    (date_range : list Day) : option (list DerivedRecord) :=
  match filter_engine df selected_coins date_range with
  | Some out => filter_engine out selected_coins date_range
  | None => None
  end.


(** The metric cards, download buttons of a pass. *)
Definition metrics_of (s : Script unit) : list Element := filter is_metric (fst s).
Definition downloads_of (s : Script unit) : list Element := filter is_download (fst s).

(** The sample tables of the examples below: one row per day at midnight,
    all four prices equal to the close. *)
Definition quote (sym : string) (d : Z) (c : float) : PriceRecord :=
  mkPrice sym sym EmptyString (d * ns_per_day)%Z c c c c.

Definition btc_three_days : list PriceRecord :=
  [quote "BTC" 1 100; quote "BTC" 2 110; quote "BTC" 3 99].

Definition btc_nine_days : list PriceRecord :=
  [quote "BTC" 1 100; quote "BTC" 2 110; quote "BTC" 3 99; quote "BTC" 4 100;
   quote "BTC" 5 101; quote "BTC" 6 102; quote "BTC" 7 103; quote "BTC" 8 104;
   quote "BTC" 9 105].

Definition mixed_case : list PriceRecord :=
  [quote "btc" 1 100; quote "ETH" 1 50; quote "BTC" 2 105].

Definition zero_close : list PriceRecord :=
  [quote "BTC" 1 100; quote "BTC" 2 0; quote "BTC" 3 99; quote "BTC" 4 100].

(** Running the engine with a second selection on what a first run returns. *)
Definition then_filter (o : option (list DerivedRecord)) (selected_coins : list string)
    (date_range : list Day) : option (list DerivedRecord) :=
  match o with
  | Some out => filter_engine out selected_coins date_range
  | None => None
  end.

(** Ascending order of symbols, as [groupby] sorts its keys. *)
Definition symbol_le (a b : string) : Prop := String.leb a b = true.

(** The candlestick chart of one uppercased symbol. *)
Definition candlestick_of (data : list DerivedRecord) (coin : string) : Element :=
  PlotlyChart (Candlestick coin (coin_data coin data)).

(** The uppercased symbols of a table, in order of first appearance
    (lines 53 and 96). *)
Definition coins_of (df : list DerivedRecord) : list string :=
  unique (map (fun r => upper (symbol (price r))) df).

Definition is_warning (e : Element) : bool :=
  match e with Warning _ => true | _ => false end.

(** Ten days of one coin with a zero close on the second day. *)
Definition ten_days_with_zero : list PriceRecord :=
  [quote "BTC" 1 100; quote "BTC" 2 0; quote "BTC" 3 99; quote "BTC" 4 100;
   quote "BTC" 5 101; quote "BTC" 6 102; quote "BTC" 7 103; quote "BTC" 8 104;
   quote "BTC" 9 105; quote "BTC" 10 106].

(** The state after the window that ends at row [i]. *)
Fixpoint state_at (ar : Arith) (w : nat) (values : list (num ar)) (i : nat)
  : VarState ar :=
  match i with
  | O => roll_step ar w values 0 (init_var ar (a_nan ar))
  | S j => roll_step ar w values (S j) (state_at ar w values j)
  end.

(** The number of values of a float64 column that are not NaN. *)
Definition nfin (l : list float) : nat :=
  List.length (filter (fun v => negb (is_nan v)) l).

(** Sum, mean, sample variance ([ddof = 1]) and sample standard deviation of
    real values. *)
Definition rsum (l : list R) : R := fold_right Rplus 0%R l.

Definition rmean (l : list R) : R := (rsum l / INR (List.length l))%R.

Definition sample_var (l : list R) : R :=
  (rsum (map (fun x => (x - rmean l) * (x - rmean l)) l)
   / (INR (List.length l) - 1))%R.

Definition sample_std (l : list R) : R := R_sqrt.sqrt (sample_var l).

(** The values of an exact column that are numbers. *)
Fixpoint somes (l : list (option R)) : list R :=
  match l with
  | [] => []
  | Some x :: l' => x :: somes l'
  | None :: l' => somes l'
  end.

(** Length of the run of equal values at the head of a list. *)
Fixpoint runlen (l : list R) : nat :=
  match l with
  | [] => 0
  | x :: l' =>
      match l' with
      | [] => 1
      | y :: _ => if Req_dec_T x y then S (runlen l') else 1
      end
  end.

Definition rsumsq (l : list R) : R := rsum (map (fun x => x * x)%R l).

(** What the state of the online update holds, in exact arithmetic, after
    the numbers [W] of a window; [Hr] holds all numbers seen so far, the
    most recent first. *)
Definition var_inv (W Hr : list R) (st : VarState exact_arith) : Prop :=
  nobs exact_arith st = Some (INR (List.length W)) /\
  (exists m q,
     mean_x exact_arith st = Some m /\ ssqdm_x exact_arith st = Some q /\
     (INR (List.length W) * m = rsum W)%R /\ (W = [] -> m = 0%R) /\
     (q = rsumsq W - INR (List.length W) * m * m)%R) /\
  compensation_add exact_arith st = Some 0%R /\
  compensation_remove exact_arith st = Some 0%R /\
  num_consecutive_same_value exact_arith st = runlen Hr /\
  (forall x t, Hr = x :: t -> prev_value exact_arith st = Some x) /\
  W = rev (firstn (List.length W) Hr) /\
  List.length W <= List.length Hr.

(** The fractional and the percentage changes of a column of real closes as
    the specification writes them: entry [k] belongs to row [k + 1]. *)
Definition quotient_frac (cs : list R) : list R :=
  zip_with (fun x p => (x / p - 1)%R) (tl cs) cs.

Definition quotient_pct (cs : list R) : list R :=
  zip_with (fun x p => ((x - p) / p * 100)%R) (tl cs) cs.

(** Eleven days with a close of [2^-600] on the third. *)
Definition overflow_days : list PriceRecord :=
  [quote "BTC" 1 1; quote "BTC" 2 1; quote "BTC" 3 0x1p-600; quote "BTC" 4 1;
   quote "BTC" 5 2; quote "BTC" 6 3; quote "BTC" 7 4; quote "BTC" 8 5;
   quote "BTC" 9 6; quote "BTC" 10 7; quote "BTC" 11 8].

(* ================================================================== *)
(** * Binary64 facts *)

Lemma div_nan (x : float) : (x / nan)%float = nan.
Proof.
  apply Prim2SF_inj. rewrite div_spec.
  change (Prim2SF nan) with S754_nan.
  unfold SF64div, SFdiv. destruct (Prim2SF x); reflexivity.
Qed.

Lemma pct_of_nan (x : float) : (x / nan - 1)%float = nan.
Proof. rewrite div_nan. reflexivity. Qed.

Lemma SFcompare_refl (x : spec_float) : x <> S754_nan -> SFcompare x x = Some Eq.
Proof.
  destruct x as [s | s | | s m e]; intros H; try congruence.
  - reflexivity.
  - destruct s; reflexivity.
  - assert (He : Z.compare e e = Eq) by apply Z.compare_refl.
    assert (Hm : Pos.compare_cont Eq m m = Eq) by apply Pos.compare_cont_refl.
    unfold SFcompare. rewrite He, Hm. destruct s; reflexivity.
Qed.

Lemma is_nan_SF (x : float) :
  is_nan x = match Prim2SF x with S754_nan => true | _ => false end.
Proof.
  unfold is_nan. rewrite FloatAxioms.eqb_spec. unfold SFeqb.
  destruct (Prim2SF x) eqn:E; try reflexivity;
    rewrite SFcompare_refl by discriminate; reflexivity.
Qed.

Lemma is_finite_SF (x : float) : is_finite x = sf_finite (Prim2SF x).
Proof.
  unfold is_finite. rewrite is_nan_SF. unfold is_infinity.
  rewrite FloatAxioms.eqb_spec, abs_spec.
  change (Prim2SF infinity) with (S754_infinity false).
  destruct (Prim2SF x) as [s | s | | s m e]; try reflexivity.
Qed.

Lemma is_zero_SF (x : float) :
  is_zero x = true -> exists s, Prim2SF x = S754_zero s.
Proof.
  unfold is_zero. rewrite FloatAxioms.eqb_spec.
  change (Prim2SF zero) with (S754_zero false).
  destruct (Prim2SF x) as [s | s | | s m e]; unfold SFeqb; simpl; intros H.
  - now exists s.
  - destruct s; discriminate.
  - discriminate.
  - destruct s; discriminate.
Qed.

(** A quotient by a zero close is infinite or NaN, and stays so through
    [- 1] and [* 100]. *)
Lemma pct_of_zero_not_finite (x z : float) :
  is_zero z = true -> is_finite ((x / z - 1) * 100)%float = false.
Proof.
  intros Hz. destruct (is_zero_SF z Hz) as [s Hs].
  rewrite is_finite_SF, mul_spec, sub_spec, div_spec, Hs.
  change (Prim2SF 1) with (S754_finite false 4503599627370496 (-52)).
  set (h := Prim2SF 100). vm_compute in h. subst h.
  destruct (Prim2SF x) as [sx | sx | | sx m e]; reflexivity.
Qed.

(* ================================================================== *)
(** * Columns, position by position *)

Section ZipFacts.
Context {A B C : Type}.
Variable f : A -> B -> C.

Lemma zip_with_length (xs : list A) (ys : list B) :
  List.length (zip_with f xs ys) = Nat.min (List.length xs) (List.length ys).
Proof.
  revert ys. induction xs as [|x xs IH]; intros [|y ys]; simpl; auto.
Qed.

End ZipFacts.

Lemma zip_with_map {R A B C : Type} (f : A -> B -> C) (g : R -> A) (h : R -> B)
    (l : list R) :
  zip_with f (map g l) (map h l) = map (fun r => f (g r) (h r)) l.
Proof. induction l as [|r l IH]; simpl; [reflexivity | now rewrite IH]. Qed.

Lemma shift_length (xs : list float) : List.length (shift xs) = List.length xs.
Proof. unfold shift. rewrite length_firstn. simpl. lia. Qed.

Lemma ffill_from_length (last : float) (xs : list float) :
  List.length (ffill_from last xs) = List.length xs.
Proof.
  revert last. induction xs as [|x xs IH]; intros last; simpl; [reflexivity|].
  destruct (is_nan x); simpl; now rewrite IH.
Qed.

(** The fill leaves a column without missing values as it is. *)
Lemma ffill_from_id (last : float) (xs : list float) :
  no_missing xs = true -> ffill_from last xs = xs.
Proof.
  revert last. induction xs as [|x xs IH]; intros last H; simpl; [reflexivity|].
  simpl in H. apply andb_true_iff in H. destruct H as [Hx Hxs].
  apply negb_true_iff in Hx. rewrite Hx. now rewrite IH.
Qed.

Lemma pct_change_length (xs : list float) :
  List.length (pct_change xs) = List.length xs.
Proof.
  unfold pct_change, ffill.
  rewrite zip_with_length, shift_length, ffill_from_length. lia.
Qed.

(** A column combined with its own shift: position [0] meets the filler,
    position [i + 1] meets position [i]. *)
Lemma nth_error_zip_shifted {A C : Type} (f : A -> A -> C) (xs : list A) (p : A) (i : nat) :
  nth_error (zip_with f xs (firstn (List.length xs) (p :: xs))) i =
  match i with
  | O => option_map (fun x => f x p) (nth_error xs 0)
  | S j =>
      match nth_error xs (S j), nth_error xs j with
      | Some x, Some q => Some (f x q)
      | _, _ => None
      end
  end.
Proof.
  revert p i. induction xs as [|x xs IH]; intros p i.
  - destruct i as [|[|j]]; reflexivity.
  - change (firstn (List.length (x :: xs)) (p :: x :: xs))
      with (p :: firstn (List.length xs) (x :: xs)).
    destruct i as [|j]; [reflexivity|].
    simpl zip_with. simpl nth_error at 1. rewrite IH.
    destruct j as [|k]; simpl.
    + destruct xs; reflexivity.
    + reflexivity.
Qed.

Lemma pct_change_first (xs : list float) :
  xs <> [] -> nth_error (pct_change xs) 0 = Some nan.
Proof.
  intros H. unfold pct_change, shift. rewrite nth_error_zip_shifted.
  destruct (nth_error (ffill xs) 0) as [x|] eqn:E.
  - simpl. now rewrite pct_of_nan.
  - apply nth_error_None in E. unfold ffill in E.
    rewrite ffill_from_length in E. destruct xs; [congruence | simpl in E; lia].
Qed.

Lemma pct_change_next (xs : list float) (i : nat) (x p : float) :
  no_missing xs = true ->
  nth_error xs i = Some p -> nth_error xs (S i) = Some x ->
  nth_error (pct_change xs) (S i) = Some (x / p - 1)%float.
Proof.
  intros Hn Hp Hx. unfold pct_change, shift, ffill.
  rewrite (ffill_from_id _ _ Hn).
  now rewrite nth_error_zip_shifted, Hx, Hp.
Qed.

Lemma with_columns_spec (df : list PriceRecord) (c v h t : list float) :
  List.length c = List.length df -> List.length v = List.length df ->
  List.length h = List.length df -> List.length t = List.length df ->
  map price (with_columns df c v h t) = df /\
  map change_pct (with_columns df c v h t) = c /\
  map volatility_7d (with_columns df c v h t) = v /\
  map high_low_range (with_columns df c v h t) = h /\
  map typical_price (with_columns df c v h t) = t.
Proof.
  revert c v h t. induction df as [|r df IH]; intros c v h t Hc Hv Hh Ht.
  - destruct c, v, h, t; try discriminate. simpl. auto.
  - destruct c as [|x c], v as [|y v], h as [|z h], t as [|u t]; try discriminate.
    simpl in *.
    destruct (IH c v h t) as (E1 & E2 & E3 & E4 & E5); try lia.
    rewrite E1, E2, E3, E4, E5. auto.
Qed.

(* ================================================================== *)
(** * The online variance *)

Lemma rsum_app (l1 l2 : list R) : rsum (l1 ++ l2) = (rsum l1 + rsum l2)%R.
Proof. induction l1 as [|x l1 IH]; simpl; [ring | rewrite IH; ring]. Qed.

Lemma rsumsq_app (l1 l2 : list R) : rsumsq (l1 ++ l2) = (rsumsq l1 + rsumsq l2)%R.
Proof. unfold rsumsq. now rewrite map_app, rsum_app. Qed.

Lemma INR_S_neq_0 (n : nat) : INR (S n) <> 0%R.
Proof. apply not_0_INR. discriminate. Qed.

Lemma ex_isnan_Some (x : R) : a_isnan exact_arith (Some x) = false.
Proof.
  unfold a_isnan. simpl. destruct (Req_dec_T x x); [reflexivity | congruence].
Qed.

Lemma add_var_exact (W Hr : list R) (st : VarState exact_arith) (v : R) :
  var_inv W Hr st -> var_inv (W ++ [v]) (v :: Hr) (add_var exact_arith st (Some v)).
Proof.
  intros (Hn & (m & q & Hm & Hq & Hsum & Hnil & Hss) & Hca & Hcr & Hsame & Hprev & Hw & Hlen).
  unfold add_var. rewrite ex_isnan_Some.
  cbn [nobs mean_x ssqdm_x compensation_add compensation_remove
       num_consecutive_same_value prev_value].
  rewrite Hn, Hm, Hq, Hca. cbn [a_add a_sub a_mul a_div a_eqb a_of_nat exact_arith ex_lift ex_div ex_eqb].
  assert (Hn1 : (INR (List.length W) + INR 1 = INR (S (List.length W)))%R)
    by (rewrite <- plus_INR; f_equal; lia).
  rewrite Hn1.
  destruct (Req_dec_T (INR (S (List.length W))) (INR 0)) as [E|_];
    [exfalso; simpl in E; now apply (INR_S_neq_0 (List.length W))|].
  destruct (Req_dec_T (INR (S (List.length W))) 0) as [E|Hnz];
    [exfalso; now apply (INR_S_neq_0 (List.length W))|].
  unfold var_inv.
  cbn [nobs mean_x ssqdm_x compensation_add compensation_remove
       num_consecutive_same_value prev_value].
  rewrite length_app. cbn [List.length]. rewrite Nat.add_1_r.
  split; [reflexivity|]. split.
  { eexists. eexists. split; [reflexivity|]. split; [reflexivity|].
    rewrite rsum_app, rsumsq_app. unfold rsumsq at 2. cbn [map rsum fold_right].
    rewrite <- Hsum, Hss, S_INR.
    pose proof (pos_INR (List.length W)) as Hpos.
    set (n := INR (List.length W)) in *.
    split; [field; lra|]. split.
    - intros E. destruct W; discriminate.
    - field. lra. }
  split; [f_equal; ring|]. split; [exact Hcr|]. split.
  { destruct Hr as [|u t].
    - simpl in Hsame. rewrite Hsame.
      destruct (prev_value exact_arith st) as [p|]; [|reflexivity].
      destruct (Req_dec_T v p); reflexivity.
    - rewrite (Hprev u t eq_refl), Hsame.
      change (runlen (v :: u :: t))
        with (if Req_dec_T v u then S (runlen (u :: t)) else 1).
      destruct (Req_dec_T v u); reflexivity. }
  split; [intros x t [= <- _]; reflexivity|]. split.
  - cbn [firstn rev]. now rewrite <- Hw.
  - simpl. lia.
Qed.

Lemma INR_S_minus_1 (n : nat) : (INR (S n) - INR 1 = INR n)%R.
Proof. rewrite S_INR. change (INR 1) with 1%R. ring. Qed.

Lemma rev_firstn_pred (W' Hr : list R) (v : R) :
  v :: W' = rev (firstn (S (List.length W')) Hr) ->
  W' = rev (firstn (List.length W') Hr).
Proof.
  intros H.
  assert (HF : firstn (S (List.length W')) Hr = rev W' ++ [v]).
  { rewrite <- (rev_involutive (firstn _ Hr)), <- H. reflexivity. }
  assert (E : firstn (List.length W') Hr
              = firstn (List.length W') (firstn (S (List.length W')) Hr)).
  { rewrite firstn_firstn. f_equal. lia. }
  rewrite E, HF.
  rewrite <- (length_rev W') at 1. rewrite firstn_app, firstn_all.
  rewrite Nat.sub_diag. simpl. now rewrite app_nil_r, rev_involutive.
Qed.

Lemma remove_var_exact (W' Hr : list R) (st : VarState exact_arith) (v : R) :
  var_inv (v :: W') Hr st -> var_inv W' Hr (remove_var exact_arith st (Some v)).
Proof.
  intros (Hn & (m & q & Hm & Hq & Hsum & Hnil & Hss) & Hca & Hcr & Hsame & Hprev & Hw & Hlen).
  cbn [List.length] in *.
  unfold remove_var. rewrite ex_isnan_Some.
  cbn [nobs mean_x ssqdm_x compensation_add compensation_remove
       num_consecutive_same_value prev_value].
  rewrite Hn, Hm, Hq, Hcr.
  cbn [a_add a_sub a_mul a_div a_eqb a_of_nat exact_arith ex_lift ex_div ex_eqb].
  rewrite INR_S_minus_1.
  change (rsum (v :: W')) with (v + rsum W')%R in Hsum.
  change (rsumsq (v :: W')) with (v * v + rsumsq W')%R in Hss.
  assert (Hw' : W' = rev (firstn (List.length W') Hr)) by now apply rev_firstn_pred with v.
  assert (Hlen' : List.length W' <= List.length Hr) by lia.
  destruct (Req_dec_T (INR (List.length W')) (INR 0)) as [E|Hnz].
  - assert (Hz : List.length W' = 0) by now apply INR_eq.
    assert (W' = []) by (destruct W'; [reflexivity | discriminate]). subst W'.
    unfold var_inv.
    cbn [nobs mean_x ssqdm_x compensation_add compensation_remove
         num_consecutive_same_value prev_value List.length].
    split; [reflexivity|]. split.
    { exists 0%R, 0%R. unfold rsumsq. simpl. repeat split; try reflexivity; ring. }
    repeat split; assumption.
  - change (INR 0) with 0%R in Hnz.
    destruct (Req_dec_T (INR (List.length W')) 0) as [E|_]; [contradiction|].
    unfold var_inv.
    cbn [nobs mean_x ssqdm_x compensation_add compensation_remove
         num_consecutive_same_value prev_value].
    split; [reflexivity|]. split.
    { eexists. eexists. split; [reflexivity|]. split; [reflexivity|].
      rewrite S_INR in Hsum, Hss.
      set (n := INR (List.length W')) in *.
      assert (Hs : rsum W' = ((n + 1) * m - v)%R) by lra.
      assert (Hq2 : rsumsq W' = (q + (n + 1) * m * m - v * v)%R) by lra.
      rewrite Hs, Hq2.
      split; [field; exact Hnz|]. split.
      - intros ->. simpl in n. unfold n in Hnz. simpl in Hnz. contradiction.
      - field. exact Hnz. }
    split; [exact Hca|]. split; [f_equal; ring|].
    repeat split; assumption.
Qed.

Lemma add_var_exact_None (st : VarState exact_arith) : add_var exact_arith st None = st.
Proof. reflexivity. Qed.

Lemma remove_var_exact_None (st : VarState exact_arith) : remove_var exact_arith st None = st.
Proof. reflexivity. Qed.

Lemma somes_app (l1 l2 : list (option R)) : somes (l1 ++ l2) = somes l1 ++ somes l2.
Proof.
  induction l1 as [|[x|] l1 IH]; simpl; [reflexivity | now rewrite IH | exact IH].
Qed.

Lemma fold_add_exact (l : list (option R)) (W Hr : list R) (st : VarState exact_arith) :
  var_inv W Hr st ->
  var_inv (W ++ somes l) (rev (somes l) ++ Hr) (fold_left (add_var exact_arith) l st).
Proof.
  revert W Hr st. induction l as [|[v|] l IH]; intros W Hr st H; simpl.
  - now rewrite app_nil_r.
  - apply (add_var_exact _ _ _ v) in H. apply IH in H.
    rewrite <- !app_assoc in *. exact H.
  - rewrite add_var_exact_None. now apply IH.
Qed.

Lemma fold_remove_exact (l : list (option R)) (W Hr : list R) (st : VarState exact_arith) :
  var_inv (somes l ++ W) Hr st ->
  var_inv W Hr (fold_left (remove_var exact_arith) l st).
Proof.
  revert st. induction l as [|[v|] l IH]; intros st H; simpl.
  - exact H.
  - apply IH. now apply remove_var_exact.
  - rewrite remove_var_exact_None. now apply IH.
Qed.

Section RollFacts.
Variable ar : Arith.

Lemma roll_var_from_length (w minp ddof : nat) (values : list (num ar)) (k i : nat)
    (st : VarState ar) :
  List.length (roll_var_from ar w minp ddof values k i st) = k.
Proof.
  revert i st. induction k as [|k IH]; intros i st; simpl; [reflexivity|].
  now rewrite IH.
Qed.

Lemma roll_var_from_nth (w minp ddof : nat) (values : list (num ar)) (k i j : nat)
    (st : VarState ar) :
  j < k ->
  roll_step ar w values i st = state_at ar w values i ->
  nth_error (roll_var_from ar w minp ddof values k i st) j =
  Some (calc_var ar minp ddof (state_at ar w values (i + j))).
Proof.
  revert i j st. induction k as [|k IH]; intros i j st Hj Hst; [lia|].
  simpl. destruct j as [|j].
  - simpl. now rewrite Hst, Nat.add_0_r.
  - simpl. rewrite Hst. rewrite (IH (S i) j); [|lia|reflexivity].
    now rewrite Nat.add_succ_r.
Qed.

Lemma roll_var_nth (w minp ddof : nat) (values : list (num ar)) (i : nat) :
  i < List.length values ->
  nth_error (roll_var ar w minp ddof values) i =
  Some (calc_var ar (Nat.max minp 1) ddof (state_at ar w values i)).
Proof.
  intros Hi. unfold roll_var.
  now rewrite (roll_var_from_nth w _ ddof values _ 0 i).
Qed.

Lemma slice_split (l : list (num ar)) (a b c : nat) :
  a <= b <= c -> slice ar l a c = slice ar l a b ++ slice ar l b c.
Proof.
  intros H. unfold slice.
  replace (c - a) with ((b - a) + (c - b)) by lia.
  replace (skipn b l) with (skipn (b - a) (skipn a l))
    by (rewrite skipn_skipn; f_equal; lia).
  generalize (skipn a l) as X. generalize (b - a) as n. generalize (c - b) as m.
  intros m n. induction n as [|n IH]; intros X; [reflexivity|].
  destruct X as [|x X]; simpl.
  - now rewrite firstn_nil.
  - now rewrite IH.
Qed.

Lemma slice_0 (l : list (num ar)) (n : nat) : slice ar l 0 n = firstn n l.
Proof. unfold slice. now rewrite Nat.sub_0_r. Qed.
End RollFacts.

Lemma var_inv_init (p : option R) : var_inv [] [] (init_var exact_arith p).
Proof.
  unfold var_inv, init_var. simpl.
  split; [reflexivity|]. split.
  { exists 0%R, 0%R. unfold rsumsq. simpl. repeat split; try reflexivity; ring. }
  repeat split; try reflexivity; try lia. intros x t H. discriminate.
Qed.

(** In exact arithmetic the state after the window of row [i] is that of the
    values of the window. *)
Lemma state_at_exact (w : nat) (values : list (option R)) (i : nat) :
  2 <= w ->
  var_inv (somes (slice exact_arith values (S i - w) (S i)))
          (rev (somes (firstn (S i) values)))
          (state_at exact_arith w values i).
Proof.
  intros Hw. induction i as [|j IH].
  - simpl state_at. unfold roll_step. simpl Nat.eqb. cbn [orb].
    replace (1 - w) with 0 by lia. rewrite slice_0.
    pose proof (fold_add_exact (firstn 1 values) [] []
                  _ (var_inv_init (nth 0 values (a_nan exact_arith)))) as H.
    now rewrite app_nil_r in H.
  - simpl state_at. unfold roll_step.
    replace (Nat.eqb (S j) 0 || Nat.leb (S j) (S (S j) - w)) with false
      by (symmetry; apply orb_false_iff; split;
          [reflexivity | apply Nat.leb_gt; lia]).
    rewrite (slice_split exact_arith values (S j - w) (S (S j) - w) (S j)) in IH by lia.
    rewrite somes_app in IH. apply fold_remove_exact in IH.
    apply (fold_add_exact (slice exact_arith values (S j) (S (S j)))) in IH.
    rewrite <- somes_app, <- (slice_split exact_arith values) in IH by lia.
    rewrite <- rev_app_distr, <- somes_app in IH.
    assert (E : firstn (S (S j)) values
                = firstn (S j) values ++ slice exact_arith values (S j) (S (S j))).
    { pose proof (slice_split exact_arith values 0 (S j) (S (S j))) as E.
      rewrite !slice_0 in E. apply E. lia. }
    rewrite E. exact IH.
Qed.

Lemma sum_sq_dev (W : list R) (m : R) :
  rsum (map (fun x => (x - m) * (x - m))%R W) =
  (rsumsq W - 2 * m * rsum W + INR (List.length W) * m * m)%R.
Proof.
  unfold rsumsq. induction W as [|x W IH].
  - simpl. ring.
  - cbn [map rsum fold_right List.length]. fold (rsum W) in *.
    change (fold_right Rplus 0%R (map (fun x0 => (x0 - m) * (x0 - m))%R W))
      with (rsum (map (fun x0 => (x0 - m) * (x0 - m))%R W)).
    change (fold_right Rplus 0%R (map (fun x0 => (x0 * x0)%R) W))
      with (rsum (map (fun x0 => (x0 * x0)%R) W)).
    rewrite IH, S_INR. ring.
Qed.

Lemma runlen_firstn (Hr : list R) (n : nat) (x : R) :
  n <= runlen Hr -> In x (firstn n Hr) -> x = hd 0%R Hr.
Proof.
  revert n. induction Hr as [|a Hr IH]; intros n Hn Hx.
  - rewrite firstn_nil in Hx. destruct Hx.
  - destruct n as [|n]; [destruct Hx|].
    cbn [firstn hd] in *. destruct Hx as [<- | Hx]; [reflexivity|].
    destruct Hr as [|b Hr]; [rewrite firstn_nil in Hx; destruct Hx|].
    change (runlen (a :: b :: Hr))
      with (if Req_dec_T a b then S (runlen (b :: Hr)) else 1) in Hn.
    destruct (Req_dec_T a b) as [->|_].
    + apply (IH n); [lia | exact Hx].
    + destruct n; [destruct Hx | lia].
Qed.

Lemma rsum_const (W : list R) (c : R) :
  (forall x, In x W -> x = c) -> rsum W = (INR (List.length W) * c)%R.
Proof.
  induction W as [|x W IH]; intros H.
  - simpl. ring.
  - cbn [rsum fold_right List.length]. fold (rsum W).
    rewrite S_INR, IH, (H x (or_introl eq_refl)); [ring|].
    intros y Hy. apply H. now right.
Qed.

Lemma rsumsq_const (W : list R) (c : R) :
  (forall x, In x W -> x = c) -> rsumsq W = (INR (List.length W) * c * c)%R.
Proof.
  unfold rsumsq. induction W as [|x W IH]; intros H.
  - simpl. ring.
  - cbn [map rsum fold_right List.length].
    change (fold_right Rplus 0%R (map (fun x0 => (x0 * x0)%R) W))
      with (rsum (map (fun x0 => (x0 * x0)%R) W)).
    rewrite S_INR, IH, (H x (or_introl eq_refl)); [ring|].
    intros y Hy. apply H. now right.
Qed.

(** With fewer values than [minp] in the window the variance is not a
    number; with a full window it is the sample variance of its values. *)
Lemma calc_var_exact (w : nat) (W Hr : list R) (st : VarState exact_arith) :
  2 <= w -> var_inv W Hr st ->
  calc_var exact_arith w 1 st =
  if Nat.ltb (List.length W) w then None
  else if Nat.eqb (List.length W) w then Some (sample_var W)
  else calc_var exact_arith w 1 st.
Proof.
  intros Hw (Hn & (m & q & Hm & Hq & Hsum & Hnil & Hss) & _ & _ & Hsame & _ & HW & Hlen).
  destruct (Nat.ltb_spec (List.length W) w) as [Hlt|Hge].
  - unfold calc_var. rewrite Hn. cbn [a_leb a_of_nat exact_arith ex_leb].
    destruct (Rle_dec (INR w) (INR (List.length W))) as [H|_]; [|reflexivity].
    apply INR_le in H. lia.
  - destruct (Nat.eqb_spec (List.length W) w) as [E|_]; [|reflexivity].
    unfold calc_var. rewrite Hn, Hq, Hsame, E.
    cbn [a_leb a_ltb a_eqb a_sub a_div a_of_nat exact_arith ex_leb ex_ltb ex_eqb ex_lift ex_div].
    destruct (Rle_dec (INR w) (INR w)) as [_|H]; [|exfalso; apply H; lra].
    destruct (Rlt_dec (INR 1) (INR w)) as [_|H];
      [|exfalso; apply H; apply lt_INR; lia].
    cbn [andb].
    assert (Hnz : INR w <> 0%R) by (apply not_0_INR; lia).
    assert (Hmean : rmean W = m).
    { unfold rmean. rewrite E, <- Hsum, E. field. exact Hnz. }
    assert (Hdev : rsum (map (fun x => (x - rmean W) * (x - rmean W))%R W) = q).
    { rewrite Hmean, sum_sq_dev, Hss, <- Hsum, E. ring. }
    assert (Hw1 : (INR w - INR 1)%R <> 0%R).
    { change (INR 1) with 1%R. assert (1 < INR w)%R; [|lra].
      change 1%R with (INR 1). apply lt_INR. lia. }
    destruct (Req_dec_T (INR w) (INR 1)) as [H|_];
      [apply INR_eq in H; lia|].
    cbn [orb].
    destruct (Rle_dec (INR w) (INR (runlen Hr))) as [Hrun|_].
    + apply INR_le in Hrun. f_equal.
      assert (Hall : forall x, In x W -> x = hd 0%R Hr).
      { intros x Hx. rewrite HW in Hx. apply in_rev in Hx.
        apply (runlen_firstn Hr (List.length W)); [lia | exact Hx]. }
      assert (Hq0 : q = 0%R).
      { rewrite Hss, (rsumsq_const W _ Hall).
        assert (Hm0 : m = hd 0%R Hr).
        { apply (Rmult_eq_reg_l (INR (List.length W))); [|rewrite E; exact Hnz].
          rewrite Hsum. now apply rsum_const. }
        rewrite Hm0. ring. }
      unfold sample_var. rewrite Hdev, Hq0, E. change (INR 0) with 0%R.
      unfold Rdiv. ring.
    + destruct (Req_dec_T (INR w - INR 1) 0) as [H|_]; [contradiction|].
      f_equal. unfold sample_var. rewrite Hdev, E. reflexivity.
Qed.

Lemma somes_map_Some (W : list R) : somes (map Some W) = W.
Proof. induction W as [|x W IH]; simpl; [reflexivity | now rewrite IH]. Qed.

Lemma zsqrt_exact (x : R) : zsqrt exact_arith (Some x) = Some (R_sqrt.sqrt x).
Proof.
  unfold zsqrt. cbn [a_ltb a_of_nat a_sqrt exact_arith ex_ltb option_map].
  destruct (Rlt_dec x (INR 0)) as [H|_]; [|reflexivity].
  change (INR 0) with 0%R in *. f_equal. symmetry. apply sqrt_neg_0. lra.
Qed.

Lemma prep_values_exact (values : list (option R)) :
  prep_values exact_arith values = values.
Proof. unfold prep_values. simpl. apply map_id. Qed.

(** In exact arithmetic [rolling(w).std()] of a row whose window holds [w]
    numbers is their sample standard deviation. *)
Lemma rolling_std_exact (w : nat) (values : list (option R)) (i : nat) (W : list R) :
  2 <= w -> i < List.length values ->
  slice exact_arith values (S i - w) (S i) = map Some W -> List.length W = w ->
  nth_error (rolling_std_in exact_arith w values) i = Some (Some (sample_std W)).
Proof.
  intros Hw Hi HW Hlen. unfold rolling_std_in.
  rewrite prep_values_exact, nth_error_map, roll_var_nth by assumption.
  replace (Nat.max w 1) with w by lia. cbn [option_map].
  pose proof (state_at_exact w values i Hw) as Hinv.
  rewrite HW, somes_map_Some in Hinv.
  rewrite (calc_var_exact w W _ _ Hw Hinv), Hlen, Nat.ltb_irrefl, Nat.eqb_refl.
  now rewrite zsqrt_exact.
Qed.

(** ** The columns in exact arithmetic *)

Lemma INR_100 : INR 100 = 100%R.
Proof. rewrite INR_IZR_INZ. reflexivity. Qed.

Lemma ffill_from_exact (last : option R) (cs : list R) :
  ffill_from_in exact_arith last (map Some cs) = map Some cs.
Proof.
  revert last. induction cs as [|c cs IH]; intros last; [reflexivity|].
  cbn [map ffill_from_in]. rewrite ex_isnan_Some. now rewrite IH.
Qed.

Lemma zip_shifted_exact (cs : list R) (p : R) :
  Forall (fun c => c <> 0%R) (p :: cs) ->
  zip_with (fun x q => a_sub exact_arith (a_div exact_arith x q) (a_of_nat exact_arith 1))
    (map Some cs) (Some p :: map Some cs) =
  map Some (zip_with (fun x q => (x / q - 1)%R) cs (p :: cs)).
Proof.
  revert p. induction cs as [|c cs IH]; intros p H; [reflexivity|].
  inversion H as [|? ? Hp Hcs]; subst.
  cbn [map zip_with]. rewrite (IH c Hcs). f_equal.
  cbn [a_sub a_div a_of_nat exact_arith ex_div ex_lift].
  destruct (Req_dec_T p 0) as [E|_]; [contradiction|]. reflexivity.
Qed.

Lemma zip_with_firstn_r {A B C : Type} (f : A -> B -> C) (xs : list A) (ys : list B) :
  zip_with f xs (firstn (List.length xs) ys) = zip_with f xs ys.
Proof.
  revert ys. induction xs as [|x xs IH]; intros [|y ys]; simpl; try reflexivity.
  now rewrite IH.
Qed.

Lemma pct_change_exact (cs : list R) :
  Forall (fun c => c <> 0%R) cs ->
  pct_change_in exact_arith (map Some cs) =
  match cs with
  | [] => []
  | _ :: _ => None :: map Some (quotient_frac cs)
  end.
Proof.
  intros H. unfold pct_change_in, shift_in. rewrite ffill_from_exact.
  rewrite zip_with_firstn_r.
  destruct cs as [|c cs]; [reflexivity|].
  cbn [map zip_with]. f_equal.
  unfold quotient_frac. cbn [tl]. now apply zip_shifted_exact.
Qed.

Lemma quotient_pct_frac (cs : list R) :
  Forall (fun c => c <> 0%R) cs ->
  quotient_pct cs = map (fun f => (f * 100)%R) (quotient_frac cs).
Proof.
  unfold quotient_pct, quotient_frac.
  destruct cs as [|p cs]; [reflexivity|]. cbn [tl].
  revert p. induction cs as [|c cs IH]; intros p H; [reflexivity|].
  inversion H as [|? ? Hp Hcs]; subst.
  cbn [zip_with map]. rewrite (IH c Hcs). f_equal. field. exact Hp.
Qed.

Lemma scale_exact (k : nat) (l : list R) :
  scale_in exact_arith (map Some l) k = map Some (map (fun x => (x * INR k)%R) l).
Proof. unfold scale_in. rewrite !map_map. reflexivity. Qed.

Lemma change_pct_exact (cs : list R) :
  Forall (fun c => c <> 0%R) cs ->
  change_pct_in exact_arith (map Some cs) =
  match cs with
  | [] => []
  | _ :: _ => None :: map Some (quotient_pct cs)
  end.
Proof.
  intros H. unfold change_pct_in. rewrite pct_change_exact by assumption.
  destruct cs as [|c cs]; [reflexivity|].
  unfold scale_in at 1. cbn [map]. f_equal.
  fold (scale_in exact_arith (map Some (quotient_frac (c :: cs))) 100).
  rewrite scale_exact, quotient_pct_frac, INR_100 by assumption. reflexivity.
Qed.

Lemma quotient_frac_length (cs : list R) :
  List.length (quotient_frac cs) = List.length cs - 1.
Proof.
  unfold quotient_frac. destruct cs as [|p cs]; [reflexivity|]. cbn [tl].
  replace (List.length (p :: cs) - 1) with (List.length cs) by (simpl; lia).
  revert p. induction cs as [|c cs IH]; intros p; [reflexivity|].
  cbn [zip_with List.length]. now rewrite IH.
Qed.

Lemma quotient_pct_length (cs : list R) :
  List.length (quotient_pct cs) = List.length cs - 1.
Proof.
  unfold quotient_pct. destruct cs as [|p cs]; [reflexivity|]. cbn [tl].
  replace (List.length (p :: cs) - 1) with (List.length cs) by (simpl; lia).
  revert p. induction cs as [|c cs IH]; intros p; [reflexivity|].
  cbn [zip_with List.length]. now rewrite IH.
Qed.

Lemma nth_error_quotient_pct (cs : list R) (i : nat) (p x : R) :
  nth_error cs i = Some p -> nth_error cs (S i) = Some x ->
  nth_error (quotient_pct cs) i = Some ((x - p) / p * 100)%R.
Proof.
  unfold quotient_pct. destruct cs as [|c cs]; [now destruct i|]. cbn [tl].
  revert c i. induction cs as [|c' cs IH]; intros c i Hp Hx.
  - destruct i; discriminate.
  - destruct i as [|i].
    + simpl in *. congruence.
    + cbn [zip_with nth_error]. apply IH; assumption.
Qed.

(** ** The sample standard deviation of scaled values *)

Lemma rsum_scale (k : R) (l : list R) :
  rsum (map (fun x => x * k)%R l) = (rsum l * k)%R.
Proof.
  induction l as [|x l IH]; [simpl; ring|].
  cbn [map]. change (rsum (x * k :: map (fun x => x * k) l)%R)
    with (x * k + rsum (map (fun x => x * k)%R l))%R.
  rewrite IH. change (rsum (x :: l)) with (x + rsum l)%R. ring.
Qed.

Lemma rmean_scale (k : R) (l : list R) :
  rmean (map (fun x => x * k)%R l) = (rmean l * k)%R.
Proof.
  unfold rmean. rewrite rsum_scale, length_map. unfold Rdiv. ring.
Qed.

Lemma sample_var_scale (k : R) (l : list R) :
  sample_var (map (fun x => x * k)%R l) = (sample_var l * (k * k))%R.
Proof.
  unfold sample_var. rewrite rmean_scale, length_map, map_map.
  replace (rsum (map (fun x => (x * k - rmean l * k) * (x * k - rmean l * k))%R l))
    with (rsum (map (fun x => (x - rmean l) * (x - rmean l))%R l) * (k * k))%R.
  - unfold Rdiv. ring.
  - rewrite <- rsum_scale, map_map. f_equal. apply map_ext. intros x. ring.
Qed.

Lemma sample_std_scale (k : R) (l : list R) :
  (0 <= k)%R ->
  sample_std (map (fun x => x * k)%R l) = (sample_std l * k)%R.
Proof.
  intros Hk. unfold sample_std. rewrite sample_var_scale.
  destruct (Rle_dec 0 (sample_var l)) as [Hv|Hv].
  - rewrite sqrt_mult_alt by exact Hv. now rewrite sqrt_square.
  - assert (Hn : (sample_var l <= 0)%R) by lra.
    rewrite (sqrt_neg_0 (sample_var l)) by exact Hn.
    rewrite sqrt_neg_0; [ring|]. 
    assert (0 <= k * k)%R by (apply Rmult_le_pos; assumption). nra.
Qed.

(** ** The volatility column in exact arithmetic *)

Lemma nth_error_scale_in (ar : Arith) (xs : list (num ar)) (k i : nat) (v : num ar) :
  nth_error xs i = Some v ->
  nth_error (scale_in ar xs k) i = Some (a_mul ar v (a_of_nat ar k)).
Proof. intros H. unfold scale_in. now rewrite nth_error_map, H. Qed.

Lemma volatility_7d_exact (cs : list R) (i : nat) :
  Forall (fun c => c <> 0%R) cs ->
  7 <= i -> i < List.length cs ->
  nth_error (volatility_7d_in exact_arith (map Some cs)) i =
    Some (Some (sample_std (firstn 7 (skipn (i - 7) (quotient_pct cs))))).
Proof.
  intros Hnz H7 Hi. unfold volatility_7d_in.
  rewrite pct_change_exact by assumption.
  destruct cs as [|c cs]; [simpl in Hi; lia|].
  set (F := quotient_frac (c :: cs)).
  assert (HF : List.length F = List.length cs).
  { unfold F. rewrite quotient_frac_length. simpl. lia. }
  assert (Hsl : slice exact_arith (None :: map Some F) (S i - 7) (S i)
                = map Some (firstn 7 (skipn (i - 7) F))).
  { unfold slice. replace (S i - 7) with (S (i - 7)) by lia.
    replace (S i - S (i - 7)) with 7 by lia.
    rewrite skipn_cons.
    assert (E : forall (l : list R) n, @skipn (num exact_arith) n (map Some l) = map Some (skipn n l)).
    { intros l n. apply skipn_map. }
    rewrite E.
    assert (E2 : forall (l : list R) n, @firstn (num exact_arith) n (map Some l) = map Some (firstn n l)).
    { intros l n. apply firstn_map. }
    rewrite E2. reflexivity. }
  erewrite nth_error_scale_in;
    [| apply (rolling_std_exact 7 _ i (firstn 7 (skipn (i - 7) F)));
       [lia | simpl; rewrite length_map; simpl in Hi; lia | exact Hsl
       | rewrite length_firstn, length_skipn; simpl in Hi; lia] ].
  cbn [a_mul a_of_nat exact_arith ex_lift]. do 2 f_equal.
  rewrite INR_100, <- sample_std_scale by lra.
  f_equal. unfold F. rewrite quotient_pct_frac by assumption.
  now rewrite skipn_map, firstn_map.
Qed.

(** ** The observation count of the online update in binary64 *)

Lemma nfin_app (l1 l2 : list float) : nfin (l1 ++ l2) = nfin l1 + nfin l2.
Proof. unfold nfin. now rewrite filter_app, length_app. Qed.

Lemma nfin_le (l : list float) : nfin l <= List.length l.
Proof. apply filter_length_le. Qed.

Lemma count_succ (n : nat) :
  n < 7 -> (a_of_nat binary64 n + 1)%float = a_of_nat binary64 (S n).
Proof.
  intros H. do 7 (destruct n as [|n]; [reflexivity|]). lia.
Qed.

Lemma count_pred (n : nat) :
  n < 7 -> (a_of_nat binary64 (S n) - 1)%float = a_of_nat binary64 n.
Proof.
  intros H. do 7 (destruct n as [|n]; [reflexivity|]). lia.
Qed.

Lemma count_below (n : nat) :
  n < 7 -> (a_of_nat binary64 7 <=? a_of_nat binary64 n)%float = false.
Proof.
  intros H. do 7 (destruct n as [|n]; [reflexivity|]). lia.
Qed.

Lemma nobs_add_var (st : VarState binary64) (v : float) :
  nobs binary64 (add_var binary64 st v) =
  if is_nan v then nobs binary64 st else (nobs binary64 st + 1)%float.
Proof.
  unfold add_var. change (a_isnan binary64 v) with (is_nan v).
  destruct (is_nan v); reflexivity.
Qed.

Lemma nobs_remove_var (st : VarState binary64) (v : float) :
  nobs binary64 (remove_var binary64 st v) =
  if is_nan v then nobs binary64 st else (nobs binary64 st - 1)%float.
Proof.
  unfold remove_var. change (a_isnan binary64 v) with (is_nan v).
  destruct (is_nan v); [reflexivity|].
  match goal with |- context [if ?c then _ else _] => destruct c end; reflexivity.
Qed.

Lemma fold_add_nobs (l : list float) (st : VarState binary64) (n : nat) :
  nobs binary64 st = a_of_nat binary64 n -> n + nfin l <= 7 ->
  nobs binary64 (fold_left (add_var binary64) l st) = a_of_nat binary64 (n + nfin l).
Proof.
  revert st n. induction l as [|v l IH]; intros st n Hn Hle.
  - simpl. now rewrite Nat.add_0_r.
  - cbn [fold_left]. unfold nfin in *. cbn [filter] in *.
    destruct (is_nan v) eqn:Ev; cbn [negb List.length] in *.
    + apply IH; [|exact Hle]. now rewrite nobs_add_var, Ev.
    + replace (n + S (List.length (filter (fun v => negb (is_nan v)) l)))
        with (S n + List.length (filter (fun v => negb (is_nan v)) l)) by lia.
      apply IH; [|lia]. rewrite nobs_add_var, Ev, Hn. apply count_succ. lia.
Qed.

Lemma fold_remove_nobs (l : list float) (st : VarState binary64) (n : nat) :
  nobs binary64 st = a_of_nat binary64 (nfin l + n) -> nfin l + n <= 7 ->
  nobs binary64 (fold_left (remove_var binary64) l st) = a_of_nat binary64 n.
Proof.
  revert st. induction l as [|v l IH]; intros st Hn Hle.
  - exact Hn.
  - cbn [fold_left]. unfold nfin in *. cbn [filter] in *.
    destruct (is_nan v) eqn:Ev; cbn [negb List.length] in *.
    + apply IH; [|exact Hle]. now rewrite nobs_remove_var, Ev.
    + apply IH; [|lia]. rewrite nobs_remove_var, Ev, Hn.
      apply count_pred. lia.
Qed.

Lemma slice_length (ar : Arith) (values : list (num ar)) (s e : nat) :
  List.length (slice ar values s e) <= e - s.
Proof. unfold slice. rewrite length_firstn. lia. Qed.

(** The count kept by the online update is the number of values of the
    window that are numbers. *)
Lemma state_at_nobs (values : list float) (i : nat) :
  nobs binary64 (state_at binary64 7 values i) =
  a_of_nat binary64 (nfin (slice binary64 values (S i - 7) (S i))).
Proof.
  induction i as [|j IH].
  - cbn [state_at]. unfold roll_step. cbn [Nat.eqb orb].
    apply (fold_add_nobs _ _ 0); [reflexivity|].
    cbn [Nat.add]. eapply Nat.le_trans; [apply nfin_le|].
    eapply Nat.le_trans; [apply (slice_length binary64)|]. simpl. lia.
  - cbn [state_at]. unfold roll_step.
    replace (Nat.eqb (S j) 0 || Nat.leb (S j) (S (S j) - 7)) with false.
    2:{ symmetry. apply orb_false_iff. split; [reflexivity|].
        apply Nat.leb_gt. lia. }
    cbv zeta.
    set (a := S j - 7) in *. set (b := S (S j) - 7).
    assert (Hab : a <= b) by (unfold a, b; lia).
    assert (Hbj : b <= S j) by (unfold b; lia).
    assert (H1 : slice binary64 values a (S j)
                 = slice binary64 values a b ++ slice binary64 values b (S j)).
    { apply slice_split. split; assumption. }
    assert (H2 : slice binary64 values b (S (S j))
                 = slice binary64 values b (S j) ++ slice binary64 values (S j) (S (S j))).
    { apply slice_split; lia. }
    assert (L1 : nfin (slice binary64 values b (S (S j))) <= 7).
    { eapply Nat.le_trans; [apply nfin_le|].
      eapply Nat.le_trans; [apply (slice_length binary64)|]. unfold b. lia. }
    assert (L2 : nfin (slice binary64 values a (S j)) <= 7).
    { eapply Nat.le_trans; [apply nfin_le|].
      eapply Nat.le_trans; [apply (slice_length binary64)|]. unfold a. lia. }
    rewrite H2, nfin_app in *. rewrite H1, nfin_app in IH, L2.
    apply fold_add_nobs; [|exact L1].
    apply fold_remove_nobs; [exact IH | exact L2].
Qed.

Lemma calc_var_few (st : VarState binary64) (n : nat) :
  nobs binary64 st = a_of_nat binary64 n -> n < 7 ->
  calc_var binary64 7 1 st = nan.
Proof.
  intros Hn H. unfold calc_var. rewrite Hn.
  change (a_leb binary64 (a_of_nat binary64 7) (a_of_nat binary64 n))
    with (a_of_nat binary64 7 <=? a_of_nat binary64 n)%float.
  now rewrite count_below.
Qed.

Lemma slice_map {X Y : Type} (f : X -> Y) (l : list X) (s e : nat) :
  firstn (e - s) (skipn s (map f l)) = map f (firstn (e - s) (skipn s l)).
Proof. now rewrite skipn_map, firstn_map. Qed.

Lemma nfin_prep (l : list float) :
  nfin (map (fun v => if is_infinity v then nan else v) l)
  = List.length (filter is_finite l).
Proof.
  unfold nfin. induction l as [|v l IH]; [reflexivity|].
  cbn [map filter].
  replace (negb (is_nan (if is_infinity v then nan else v))) with (is_finite v).
  - destruct (is_finite v); cbn [List.length]; now rewrite IH.
  - unfold is_finite. destruct (is_infinity v) eqn:Ei.
    + now rewrite orb_true_r.
    + now rewrite orb_false_r.
Qed.

(** [rolling(7).std()] of a row whose window holds fewer than seven finite
    values is not a number. *)
Lemma rolling_std_few (xs : list float) (i : nat) :
  i < List.length xs ->
  List.length (filter is_finite (firstn (S i - (S i - 7)) (skipn (S i - 7) xs))) < 7 ->
  nth_error (rolling_std_in binary64 7 xs) i = Some nan.
Proof.
  intros Hi Hf. unfold rolling_std_in.
  rewrite nth_error_map, roll_var_nth
    by (unfold prep_values; now rewrite length_map).
  cbn [option_map]. f_equal.
  change (Nat.max 7 1) with 7.
  rewrite (calc_var_few _ (nfin (slice binary64 (prep_values binary64 xs) (S i - 7) (S i)))).
  - reflexivity.
  - apply state_at_nobs.
  - unfold slice, prep_values.
    change (a_isinf binary64) with is_infinity. change (a_nan binary64) with nan.
    rewrite slice_map. rewrite nfin_prep. exact Hf.
Qed.

(** ** The float64 columns of the table *)

Lemma rolling_std_length (w : nat) (xs : list float) :
  List.length (rolling_std w xs) = List.length xs.
Proof.
  unfold rolling_std, rolling_std_in, roll_var, prep_values.
  now rewrite length_map, roll_var_from_length, length_map.
Qed.

Lemma derive_columns (df : list PriceRecord) :
  map price (derive df) = df /\
  map change_pct (derive df) =
    mul_scalar (pct_change (map close df)) 100 /\
  map volatility_7d (derive df) =
    mul_scalar (rolling_std 7 (pct_change (map close df))) 100.
Proof.
  unfold derive.
  destruct (with_columns_spec df
    (mul_scalar (pct_change (map close df)) 100)
    (mul_scalar (rolling_std 7 (pct_change (map close df))) 100)
    (zip_with PrimFloat.sub (map high df) (map low df))
    (div_scalar
       (zip_with PrimFloat.add
          (zip_with PrimFloat.add (map high df) (map low df))
          (map close df)) 3)) as (E1 & E2 & E3 & _).
  - unfold mul_scalar. now rewrite length_map, pct_change_length, length_map.
  - unfold mul_scalar.
    now rewrite length_map, rolling_std_length, pct_change_length, length_map.
  - rewrite zip_with_length, !length_map. lia.
  - unfold div_scalar. rewrite length_map, !zip_with_length, !length_map. lia.
  - auto.
Qed.

(** The float64 columns are the columns of the script in binary64. *)
Lemma ffill_from_binary64 (last : float) (xs : list float) :
  ffill_from_in binary64 last xs = ffill_from last xs.
Proof.
  revert last. induction xs as [|x xs IH]; intros last; [reflexivity|].
  cbn [ffill_from_in ffill_from].
  change (a_isnan binary64 x) with (is_nan x).
  destruct (is_nan x); now rewrite IH.
Qed.

Lemma pct_change_binary64 (xs : list float) :
  pct_change_in binary64 xs = pct_change xs.
Proof.
  unfold pct_change_in, pct_change, ffill, shift_in, shift.
  change (a_nan binary64) with nan.
  rewrite ffill_from_binary64. reflexivity.
Qed.

Lemma derive_binary64 (df : list PriceRecord) :
  map change_pct (derive df) = change_pct_in binary64 (map close df) /\
  map volatility_7d (derive df) = volatility_7d_in binary64 (map close df).
Proof.
  destruct (derive_columns df) as (_ & -> & ->).
  unfold change_pct_in, volatility_7d_in, rolling_std. split.
  - exact (f_equal (fun l => scale_in binary64 l 100)
             (eq_sym (pct_change_binary64 (map close df)))).
  - exact (f_equal (fun l => scale_in binary64 (rolling_std_in binary64 7 l) 100)
             (eq_sym (pct_change_binary64 (map close df)))).
Qed.

(** While the window still reaches the NaN at the head of the column it
    holds fewer than seven observations. *)
Lemma rolling_std_head_nan (xs : list float) (i : nat) :
  nth_error xs 0 = Some nan -> i < 7 -> i < List.length xs ->
  nth_error (rolling_std 7 xs) i = Some nan.
Proof.
  intros H0 H7 Hi. apply rolling_std_few; [assumption|].
  destruct xs as [|x xs]; [discriminate|]. injection H0 as ->.
  replace (S i - 7) with 0 by lia.
  change (skipn 0 (nan :: xs)) with (nan :: xs).
  replace (S i - 0) with (S i) by lia.
  change (filter is_finite (firstn (S i) (nan :: xs)))
    with (filter is_finite (firstn i xs)).
  pose proof (filter_length_le is_finite (firstn i xs)) as Hle.
  pose proof (firstn_le_length i xs) as Hf. lia.
Qed.

Lemma filter_length_lt {A : Type} (f : A -> bool) (l : list A) :
  forallb f l = false -> List.length (filter f l) < List.length l.
Proof.
  induction l as [|a l IH]; simpl; [discriminate|].
  pose proof (filter_length_le f l) as Hle.
  destruct (f a); simpl; intros H; [apply IH in H|]; lia.
Qed.

(** From position 7 on the window is the seven values ending at the
    position; a NaN or an infinity among them leaves fewer than seven
    observations. *)
Lemma rolling_std_window_nan (xs : list float) (i : nat) :
  7 <= i -> i < List.length xs ->
  List.length (firstn 7 (skipn (i - 6) xs)) = 7 /\
  (forallb is_finite (firstn 7 (skipn (i - 6) xs)) = false ->
   nth_error (rolling_std 7 xs) i = Some nan).
Proof.
  intros H7 Hi.
  assert (Hlen : List.length (firstn 7 (skipn (i - 6) xs)) = 7)
    by (rewrite length_firstn, length_skipn; lia).
  split; [exact Hlen|]. intros Hall.
  apply rolling_std_few; [assumption|].
  replace (S i - 7) with (i - 6) by lia.
  replace (S i - (i - 6)) with 7 by lia.
  apply filter_length_lt in Hall. now rewrite Hlen in Hall.
Qed.

(** Without missing closes, the percentage change of a position is a function
    of the close at the position and the close before it. *)
Lemma change_pct_at (df : list PriceRecord) (j : nat) :
  no_missing (map close df) = true ->
  nth_error (map change_pct (derive df)) j =
  match j with
  | O => option_map (fun _ => nan) (nth_error (map close df) 0)
  | S k =>
      match nth_error (map close df) (S k), nth_error (map close df) k with
      | Some x, Some q => Some ((x / q - 1) * 100)%float
      | _, _ => None
      end
  end.
Proof.
  intros Hn. destruct (derive_columns df) as (_ & -> & _).
  unfold mul_scalar, pct_change, shift, ffill.
  rewrite (ffill_from_id _ _ Hn).
  rewrite nth_error_map, nth_error_zip_shifted.
  destruct j as [|k].
  - destruct (nth_error (map close df) 0); simpl; [|reflexivity].
    now rewrite pct_of_nan.
  - destruct (nth_error (map close df) (S k)), (nth_error (map close df) k);
      reflexivity.
Qed.

(** ** The columns of real closes, row by row *)

Lemma nth_error_map_Some (cs : list R) (i : nat) :
  nth_error (map Some cs) i = option_map Some (nth_error cs i).
Proof. apply nth_error_map. Qed.

(** In exact arithmetic the change of row [i + 1] is the quotient the
    specification writes, and not a number when the close before is zero. *)
Lemma change_pct_exact_at (cs : list R) (i : nat) (p x : R) :
  nth_error cs i = Some p -> nth_error cs (S i) = Some x ->
  nth_error (change_pct_in exact_arith (map Some cs)) (S i) =
  Some (if Req_dec_T p 0 then None else Some ((x - p) / p * 100)%R).
Proof.
  intros Hp Hx. unfold change_pct_in, scale_in, pct_change_in, shift_in.
  rewrite ffill_from_exact, nth_error_map, nth_error_zip_shifted.
  rewrite !nth_error_map_Some, Hp, Hx. cbn [option_map].
  cbn [a_sub a_div a_mul a_of_nat exact_arith ex_div ex_lift].
  destruct (Req_dec_T p 0) as [E|N]; [reflexivity|].
  cbn [ex_lift]. do 2 f_equal. rewrite INR_100. change (INR 1) with 1%R. field. exact N.
Qed.

Lemma change_pct_exact_first (cs : list R) (c : R) :
  nth_error cs 0 = Some c ->
  nth_error (change_pct_in exact_arith (map Some cs)) 0 = Some None.
Proof.
  intros Hc. unfold change_pct_in, scale_in, pct_change_in, shift_in.
  rewrite ffill_from_exact, nth_error_map, nth_error_zip_shifted.
  rewrite nth_error_map_Some, Hc. reflexivity.
Qed.

Lemma somes_length (l : list (option R)) : List.length (somes l) <= List.length l.
Proof.
  induction l as [|[x|] l IH]; simpl; lia.
Qed.

(** In exact arithmetic too a window with fewer than [w] numbers gives no
    number. *)
Lemma rolling_std_exact_few (w : nat) (values : list (option R)) (i : nat) :
  2 <= w -> i < List.length values ->
  List.length (somes (slice exact_arith values (S i - w) (S i))) < w ->
  nth_error (rolling_std_in exact_arith w values) i = Some None.
Proof.
  intros Hw Hi Hlt. unfold rolling_std_in.
  rewrite prep_values_exact, nth_error_map, roll_var_nth by assumption.
  replace (Nat.max w 1) with w by lia. cbn [option_map].
  pose proof (state_at_exact w values i Hw) as Hinv.
  rewrite (calc_var_exact w _ _ _ Hw Hinv).
  apply Nat.ltb_lt in Hlt. rewrite Hlt. reflexivity.
Qed.

Lemma volatility_7d_exact_head (cs : list R) (i : nat) :
  i < 7 -> i < List.length cs ->
  nth_error (volatility_7d_in exact_arith (map Some cs)) i = Some None.
Proof.
  intros H7 Hi. unfold volatility_7d_in.
  assert (Hpc : exists l, pct_change_in exact_arith (map Some cs) = None :: l /\
                          List.length l = List.length cs - 1).
  { unfold pct_change_in, shift_in. rewrite ffill_from_exact, zip_with_firstn_r.
    destruct cs as [|c cs]; [simpl in Hi; lia|].
    cbn [map zip_with]. eexists. split; [reflexivity|].
    rewrite zip_with_length. simpl. rewrite !length_map. lia. }
  destruct Hpc as (l & -> & Hl).
  rewrite (nth_error_scale_in exact_arith _ 100 i None); [reflexivity|].
  apply rolling_std_exact_few; [lia | simpl; lia |].
  unfold slice. replace (S i - 7) with 0 by lia.
  replace (S i - 0) with (S i) by lia.
  change (skipn 0 (None :: l)) with (None :: l).
  change (firstn (S i) (None :: l)) with (None :: firstn i l).
  change (somes (None :: firstn i l)) with (somes (firstn i l)).
  pose proof (somes_length (firstn i l)) as H1.
  pose proof (firstn_le_length i l) as H2. lia.
Qed.

(* ================================================================== *)
(** * The derived columns *)

(** C1: on a table without missing close, the rows of the prepared table
    are the loaded rows in their order; [change_pct] is NaN (null) at
    position 0, and at every later position it is the binary64 value of
    [(close[i] / close[i-1] - 1) * 100], where [close[i-1]] is the close of
    the row just before in the whole table, whatever its symbol.  The column
    is the function [change_pct_in] of the close column, run in binary64;
    the same function in exact arithmetic is not a number at position 0 and
    is [(close[i] - close[i-1]) / close[i-1] * 100] at every later position
    whose preceding close is not zero, so the column is that quotient up to
    the rounding of binary64.  This holds in any row order, so for every
    date-sorted table. *)
Theorem change_pct_of_preceding_row (df : list PriceRecord) :
  no_missing (map close df) = true ->
  map price (derive df) = df /\
  (forall r, nth_error df 0 = Some r ->
     nth_error (map change_pct (derive df)) 0 = Some nan) /\
  (forall i p r, nth_error df i = Some p -> nth_error df (S i) = Some r ->
     nth_error (map change_pct (derive df)) (S i) =
     Some ((close r / close p - 1) * 100)%float) /\
  map change_pct (derive df) = change_pct_in binary64 (map close df) /\
  (forall (cs : list R) (c : R), nth_error cs 0 = Some c ->
     nth_error (change_pct_in exact_arith (map Some cs)) 0 = Some None) /\
  (forall (cs : list R) (i : nat) (p x : R),
     nth_error cs i = Some p -> nth_error cs (S i) = Some x ->
     nth_error (change_pct_in exact_arith (map Some cs)) (S i) =
     Some (if Req_dec_T p 0 then None else Some ((x - p) / p * 100)%R)).
Proof.
  intros Hn. split; [apply derive_columns|]. split; [|split; [|split; [|split]]].
  - intros r Hr. rewrite change_pct_at, nth_error_map, Hr by assumption.
    reflexivity.
  - intros i p r Hp Hr.
    rewrite change_pct_at, !nth_error_map, Hp, Hr by assumption. reflexivity.
  - apply derive_binary64.
  - apply change_pct_exact_first.
  - apply change_pct_exact_at.
Qed.

Lemma change_pct_of_preceding_row_witness :
  no_missing (map close btc_three_days) = true /\
  map change_pct (derive btc_three_days) =
    [nan; (110 / 100 - 1) * 100; (99 / 110 - 1) * 100]%float /\
  (abs ((110 / 100 - 1) * 100 - 10) <? 0x1p-46)%float = true /\
  nth_error (change_pct_in exact_arith (map Some [100; 110; 99]%R)) 1 =
    Some (if Req_dec_T 100 0 then None else Some ((110 - 100) / 100 * 100)%R).
Proof.
  split; [reflexivity|].
  destruct (change_pct_of_preceding_row btc_three_days eq_refl)
    as (_ & H0 & Hi & _ & _ & He).
  split; [|split; [reflexivity|]].
  - specialize (H0 _ eq_refl).
    pose proof (Hi 0 _ _ eq_refl eq_refl) as H1.
    pose proof (Hi 1 _ _ eq_refl eq_refl) as H2.
    destruct (map change_pct (derive btc_three_days))
      as [|a [|b [|c [|d l]]]] eqn:E; try discriminate.
    injection H0 as ->. injection H1 as ->. injection H2 as ->. reflexivity.
  - apply (He [100; 110; 99]%R 0 100%R 110%R); reflexivity.
Defined.

(** C10: the division by the preceding close is not guarded.  On a table
    without missing close, when the close of row [i] is zero, [change_pct]
    of row [i + 1] is infinite or NaN, whatever the close of that row.  At
    every other position the value is the one its own two closes give: a
    table that agrees on the close at the position and at the one before has
    the same [change_pct] there. *)
Theorem change_pct_division_unguarded
    (df : list PriceRecord) (i : nat) (p : PriceRecord) :
  no_missing (map close df) = true ->
  nth_error df i = Some p ->
  S i < List.length df ->
  is_zero (close p) = true ->
  (exists v, nth_error (map change_pct (derive df)) (S i) = Some v /\
             is_finite v = false) /\
  (forall df' j, j <> S i ->
     no_missing (map close df') = true ->
     nth_error (map close df') j = nth_error (map close df) j ->
     nth_error (map close df') (pred j) = nth_error (map close df) (pred j) ->
     nth_error (map change_pct (derive df')) j =
     nth_error (map change_pct (derive df)) j).
Proof.
  intros Hn Hp Hlt Hz. split.
  - destruct (nth_error df (S i)) as [r|] eqn:Hr.
    + exists ((close r / close p - 1) * 100)%float. split.
      * rewrite change_pct_at, !nth_error_map, Hp, Hr by assumption.
        reflexivity.
      * now apply pct_of_zero_not_finite.
    + apply nth_error_None in Hr. lia.
  - intros df' j _ Hn' Hj Hpred. rewrite !change_pct_at by assumption.
    destruct j as [|k]; simpl in Hpred; now rewrite Hj, ?Hpred.
Qed.

Lemma change_pct_division_unguarded_witness :
  no_missing (map close zero_close) = true /\
  nth_error zero_close 1 = Some (quote "BTC" 2 0) /\
  2 < List.length zero_close /\
  is_zero (close (quote "BTC" 2 0)) = true /\
  (exists v, nth_error (map change_pct (derive zero_close)) 2 = Some v /\
             is_finite v = false).
Proof.
  split; [reflexivity|].
  split; [reflexivity | split; [simpl; lia | split; [reflexivity|]]].
  apply (change_pct_division_unguarded zero_close 1 (quote "BTC" 2 0)).
  - reflexivity.
  - reflexivity.
  - simpl. lia.
  - reflexivity.
Defined.

(** C2 (as amended): on a table without missing close, [volatility_7d] is
    NaN (null) at every position below 7, the first seven rows, and at every
    position [i >= 7] whose window, the seven fractional changes
    [pct[i-6 .. i]] with [pct[k] = close[k] / close[k-1] - 1], holds a value
    that is not finite.  The column is the function [volatility_7d_in] of
    the close column, run in binary64: the online update of pandas, which
    reaches the window of a row from the window of the row before.  The same
    function in exact arithmetic, on closes none of which is zero, is not a
    number below position 7 and at every position [i >= 7] it is the sample
    standard deviation of the seven percentage changes
    [change_pct[i-6 .. i]]; in binary64 the column is that standard
    deviation up to the rounding of the online update, which depends on the
    rows before the window. *)
Theorem volatility_7d_window (df : list PriceRecord) :
  no_missing (map close df) = true ->
  map change_pct (derive df) =
    map (fun x => (x * 100)%float) (pct_change (map close df)) /\
  (forall k p r, nth_error df k = Some p -> nth_error df (S k) = Some r ->
     nth_error (pct_change (map close df)) (S k) =
     Some (close r / close p - 1)%float) /\
  (forall i, i < 7 -> i < List.length df ->
     nth_error (map volatility_7d (derive df)) i = Some nan) /\
  (forall i, 7 <= i -> i < List.length df ->
     List.length (firstn 7 (skipn (i - 6) (pct_change (map close df)))) = 7 /\
     (forallb is_finite (firstn 7 (skipn (i - 6) (pct_change (map close df)))) = false ->
      nth_error (map volatility_7d (derive df)) i = Some nan)) /\
  map volatility_7d (derive df) = volatility_7d_in binary64 (map close df) /\
  (forall (cs : list R) (i : nat), i < 7 -> i < List.length cs ->
     nth_error (volatility_7d_in exact_arith (map Some cs)) i = Some None) /\
  (forall (cs : list R) (i : nat),
     Forall (fun c => c <> 0%R) cs -> 7 <= i -> i < List.length cs ->
     List.length (firstn 7 (skipn (i - 7) (quotient_pct cs))) = 7 /\
     (forall k x p, i - 6 <= S k <= i ->
        nth_error cs k = Some p -> nth_error cs (S k) = Some x ->
        nth_error (firstn 7 (skipn (i - 7) (quotient_pct cs))) (k - (i - 7)) =
        Some ((x - p) / p * 100)%R) /\
     nth_error (volatility_7d_in exact_arith (map Some cs)) i =
     Some (Some (sample_std (firstn 7 (skipn (i - 7) (quotient_pct cs)))))).
Proof.
  intros Hn.
  destruct (derive_columns df) as (_ & Hc & Hv).
  split; [exact Hc|].
  split.
  { intros k p r Hp Hr.
    apply pct_change_next; [assumption | |]; now apply map_nth_error. }
  assert (Hlen : List.length (pct_change (map close df)) = List.length df)
    by now rewrite pct_change_length, length_map.
  split; [|split; [|split; [|split]]].
  - intros i H7 Hi. rewrite Hv. unfold mul_scalar. rewrite nth_error_map.
    destruct df as [|r df]; [simpl in Hi; lia|].
    rewrite (rolling_std_head_nan _ i); [reflexivity | | assumption | lia].
    apply pct_change_first. discriminate.
  - intros i H7 Hi.
    destruct (rolling_std_window_nan (pct_change (map close df)) i) as (Hw & Hnan);
      [assumption | lia |].
    split; [exact Hw|]. intros Hall.
    rewrite Hv. unfold mul_scalar. rewrite nth_error_map, (Hnan Hall). reflexivity.
  - apply derive_binary64.
  - apply volatility_7d_exact_head.
  - intros cs i Hnz H7 Hi. split; [|split].
    + rewrite length_firstn, length_skipn, quotient_pct_length. lia.
    + intros k x p Hk Hp Hx.
      rewrite nth_error_firstn, nth_error_skipn.
      replace (i - 7 + (k - (i - 7))) with k by lia.
      destruct (Nat.ltb_spec (k - (i - 7)) 7); [|lia].
      now apply nth_error_quotient_pct.
    + now apply volatility_7d_exact.
Qed.

Lemma volatility_7d_window_witness :
  no_missing (map close btc_nine_days) = true /\
  nth_error (map volatility_7d (derive btc_nine_days)) 6 = Some nan /\
  Forall (fun c => c <> 0%R) [100; 110; 99; 100; 101; 102; 103; 104; 105]%R /\
  nth_error (volatility_7d_in exact_arith
               (map Some [100; 110; 99; 100; 101; 102; 103; 104; 105]%R)) 7 =
    Some (Some (sample_std
                  (firstn 7 (skipn 0
                     (quotient_pct [100; 110; 99; 100; 101; 102; 103; 104; 105]%R))))).
Proof.
  split; [reflexivity|].
  destruct (volatility_7d_window btc_nine_days eq_refl)
    as (_ & _ & Hlow & _ & _ & _ & Hex).
  split; [apply Hlow; simpl; lia|].
  assert (Hnz : Forall (fun c => c <> 0%R)
                  [100; 110; 99; 100; 101; 102; 103; 104; 105]%R)
    by (repeat constructor; lra).
  split; [exact Hnz|].
  destruct (Hex _ 7 Hnz) as (_ & _ & H); [lia | simpl; lia | exact H].
Defined.

(** C2 (as stated) fails: on nine days of positive closes the column is null
    at position 6 as well, so it is not true that it is null below
    position 6 only. *)
Lemma volatility_7d_null_below_6_counterexample :
  date_sorted btc_nine_days /\
  ~ (forall i v,
       nth_error (map volatility_7d (derive btc_nine_days)) i = Some v ->
       (is_nan v = true <-> i < 6)).
Proof.
  split.
  - unfold date_sorted, sorted_by, btc_nine_days.
    repeat constructor; vm_compute; discriminate.
  - intros H. specialize (H 6 nan eq_refl).
    destruct H as [H _]. specialize (H eq_refl). lia.
Qed.

(** The rounding of the online update can go as far as a null.  The change
    of the fourth day of [overflow_days] is [2^600], too large for its
    square to be a binary64 number; the sum of squares becomes infinite, and
    when that change has left the window, at position 10, the seven changes
    of the window are finite and the value is still null. *)
Lemma volatility_7d_null_on_finite_window :
  forallb is_finite (firstn 7 (skipn 4 (pct_change (map close overflow_days)))) = true /\
  nth_error (map volatility_7d (derive overflow_days)) 10 = Some nan.
Proof. split; vm_compute; reflexivity. Qed.

(* ================================================================== *)
(** * The filter engine *)

Lemma getitem_mask_map {A : Type} (f : A -> bool) (l : list A) :
  getitem_mask l (map f l) = filter f l.
Proof.
  induction l as [|x l IH]; simpl; [reflexivity|].
  rewrite IH. reflexivity.
Qed.

Lemma and_series_map {A : Type} (f g : A -> bool) (l : list A) :
  and_series (map f l) (map g l) = map (fun r => f r && g r) l.
Proof. apply zip_with_map. Qed.

Lemma filter_subseq {A : Type} (f : A -> bool) (l : list A) :
  subseq (filter f l) l.
Proof.
  induction l as [|x l IH]; simpl; [constructor|].
  destruct (f x); now constructor.
Qed.

Lemma filter_idem {A : Type} (f : A -> bool) (l : list A) :
  filter f (filter f l) = filter f l.
Proof.
  induction l as [|x l IH]; simpl; [reflexivity|].
  destruct (f x) eqn:E; simpl; [rewrite E, IH|]; auto.
Qed.

Lemma isin_In (x : string) (l : list string) : isin x l = true <-> In x l.
Proof.
  unfold isin. rewrite existsb_exists. split.
  - intros (y & Hy & E). apply String.eqb_eq in E. now subst.
  - intros H. exists x. split; [assumption | apply String.eqb_refl].
Qed.

(** With two dates or more the engine keeps the rows of the two-ended
    selection; with one date, those of the open-ended one. *)
Lemma filter_engine_two (df : list DerivedRecord) (sel : list string)
    (a b : Day) (rest : list Day) :
  filter_engine df sel (a :: b :: rest) = Some (filter (in_selection sel a b) df).
Proof.
  unfold filter_engine, mask. rewrite !and_series_map, getitem_mask_map.
  reflexivity.
Qed.

Lemma filter_engine_one (df : list DerivedRecord) (sel : list string) (a : Day) :
  filter_engine df sel [a] = Some (filter (in_selection_from sel a) df).
Proof.
  unfold filter_engine, mask. rewrite !and_series_map, getitem_mask_map.
  f_equal. apply filter_ext. intros r. unfold in_selection_from.
  apply andb_true_r.
Qed.

Lemma map_upper_id (sel : list string) :
  (forall c, In c sel -> upper c = c) -> map upper sel = sel.
Proof.
  intros H. rewrite (map_ext_in upper (fun c => c) sel H). apply map_id.
Qed.

Lemma in_selection_spec (sel : list string) (a b : Day) (r : DerivedRecord) :
  in_selection sel a b r = true <->
  In (upper (symbol (price r))) (map upper sel) /\ (a <= row_day r <= b)%Z.
Proof.
  unfold in_selection. rewrite !andb_true_iff, isin_In, !Z.leb_le. tauto.
Qed.

Lemma in_selection_from_spec (sel : list string) (a : Day) (r : DerivedRecord) :
  in_selection_from sel a r = true <->
  In (upper (symbol (price r))) (map upper sel) /\ (a <= row_day r)%Z.
Proof.
  unfold in_selection_from. rewrite andb_true_iff, isin_In, Z.leb_le. tauto.
Qed.

(** C3: for a two-ended range [[a, b]] the engine returns the rows of the
    table whose uppercased symbol is selected and whose day lies in
    [[a, b]], bounds included: exactly those, no more rows than the table
    has, and in the order of the table.  The selected symbols are compared
    uppercased; for a selection of uppercase symbols, as the coin selector
    offers them, a row is selected when its uppercased symbol is in the
    selection. *)
Theorem filter_engine_two_ended (df : list DerivedRecord) (sel : list string) (a b : Day) :
  exists out,
    filter_engine df sel [a; b] = Some out /\
    out = filter (in_selection sel a b) df /\
    (forall r, In r out <->
       In r df /\ In (upper (symbol (price r))) (map upper sel) /\
       (a <= row_day r <= b)%Z) /\
    ((forall c, In c sel -> upper c = c) ->
     forall r, In r out <->
       In r df /\ In (upper (symbol (price r))) sel /\
       (a <= row_day r <= b)%Z) /\
    List.length out <= List.length df /\
    subseq out df.
Proof.
  exists (filter (in_selection sel a b) df).
  split; [apply filter_engine_two|]. split; [reflexivity|].
  assert (Hin : forall r, In r (filter (in_selection sel a b) df) <->
            In r df /\ In (upper (symbol (price r))) (map upper sel) /\
            (a <= row_day r <= b)%Z).
  { intros r. rewrite filter_In, in_selection_spec. tauto. }
  split; [exact Hin|]. split; [|split].
  - intros Hup r. rewrite Hin, (map_upper_id _ Hup). tauto.
  - apply filter_length_le.
  - apply filter_subseq.
Qed.

(** C7: for a range of one date the end of the range is not tested: the
    engine returns the rows whose uppercased symbol is selected and whose
    day is not before the start, in table order; the selected rows of the
    start date are among them. *)
Theorem filter_engine_open_ended (df : list DerivedRecord) (sel : list string) (a : Day) :
  exists out,
    filter_engine df sel [a] = Some out /\
    (forall r, In r out <->
       In r df /\ In (upper (symbol (price r))) (map upper sel) /\
       (a <= row_day r)%Z) /\
    out = filter (in_selection_from sel a) df /\
    subseq out df /\
    (forall r, In r df -> In (upper (symbol (price r))) (map upper sel) ->
       row_day r = a -> In r out).
Proof.
  exists (filter (in_selection_from sel a) df).
  split; [apply filter_engine_one|].
  assert (Hin : forall r, In r (filter (in_selection_from sel a) df) <->
            In r df /\ In (upper (symbol (price r))) (map upper sel) /\
            (a <= row_day r)%Z).
  { intros r. rewrite filter_In, in_selection_from_spec. tauto. }
  split; [exact Hin|]. split; [reflexivity|]. split; [apply filter_subseq|].
  intros r Hr Hs Hd. apply Hin. repeat split; try assumption. lia.
Qed.

(** C8: filtering the output of the engine again with the same selection
    changes nothing, for every selection and every range. *)
Theorem filter_engine_idempotent (df : list DerivedRecord) (sel : list string)
    (date_range : list Day) :
  filter_twice df sel date_range = filter_engine df sel date_range.
Proof.
  unfold filter_twice.
  destruct date_range as [|a [|b rest]].
  - reflexivity.
  - rewrite !filter_engine_one. now rewrite filter_idem.
  - rewrite !filter_engine_two. now rewrite filter_idem.
Qed.

(* ================================================================== *)
(** * Date order *)

Lemma insert_by_date_perm (r : PriceRecord) (l : list PriceRecord) :
  Permutation (insert_by_date r l) (r :: l).
Proof.
  induction l as [|r' l IH]; simpl; [reflexivity|].
  destruct (Z.leb (date r) (date r')); [reflexivity|].
  rewrite IH. apply perm_swap.
Qed.

Lemma insert_by_date_sorted (r : PriceRecord) (l : list PriceRecord) :
  date_sorted l -> date_sorted (insert_by_date r l).
Proof.
  unfold date_sorted, sorted_by.
  induction l as [|r' l IH]; simpl; intros H.
  - constructor; constructor.
  - apply StronglySorted_inv in H. destruct H as [Hl Hall].
    destruct (Z.leb_spec (date r) (date r')) as [Hle|Hgt].
    + constructor; [now constructor|].
      constructor; [assumption|].
      eapply Forall_impl; [|exact Hall]. simpl. intros x Hx. lia.
    + constructor; [now apply IH|].
      apply (Permutation_Forall (Permutation_sym (insert_by_date_perm r l))).
      constructor; [lia | assumption].
Qed.

(** The insertion sort is one of the orders [sort_values] may return. *)
Lemma sort_by_date_sorted (l : list PriceRecord) :
  date_sorted (sort_by_date l) /\ Permutation (sort_by_date l) l.
Proof.
  induction l as [|r l [IHs IHp]]; simpl.
  - split; [constructor | reflexivity].
  - split; [now apply insert_by_date_sorted|].
    rewrite insert_by_date_perm. now constructor.
Qed.

Lemma subseq_Forall {A : Type} (P : A -> Prop) (l1 l2 : list A) :
  subseq l1 l2 -> Forall P l2 -> Forall P l1.
Proof.
  induction 1 as [|x l1 l2 _ IH|x l1 l2 _ IH]; intros H;
    [constructor | |]; inversion H; subst; auto.
Qed.

Lemma subseq_sorted {A : Type} (key : A -> Z) (l1 l2 : list A) :
  subseq l1 l2 -> sorted_by key l2 -> sorted_by key l1.
Proof.
  unfold sorted_by.
  induction 1 as [|x l1 l2 Hs IH|x l1 l2 Hs IH]; intros H;
    [constructor | |]; apply StronglySorted_inv in H; destruct H as [Hl Hall].
  - now apply IH.
  - constructor; [now apply IH | now apply (subseq_Forall _ _ _ Hs)].
Qed.

Lemma sorted_by_map {A B : Type} (f : A -> B) (key : B -> Z) (l : list A) :
  sorted_by key (map f l) -> sorted_by (fun x => key (f x)) l.
Proof.
  unfold sorted_by. induction l as [|x l IH]; simpl; intros H; [constructor|].
  apply StronglySorted_inv in H. destruct H as [Hl Hall].
  constructor; [now apply IH|].
  rewrite Forall_map in Hall. exact Hall.
Qed.

(** What the engine returns of a date-sorted table is sorted by date. *)
Lemma filter_engine_sorted (df : list PriceRecord)
    (sel : list string) (dr : list Day) (data : list DerivedRecord) :
  date_sorted df ->
  filter_engine (derive df) sel dr = Some data ->
  sorted_by (fun r => date (price r)) data.
Proof.
  intros Hs Hf.
  assert (Hd : sorted_by (fun r => date (price r)) (derive df)).
  { apply sorted_by_map. destruct (derive_columns df) as (-> & _). exact Hs. }
  destruct dr as [|a [|b rest]].
  - discriminate.
  - rewrite filter_engine_one in Hf. injection Hf as <-.
    exact (subseq_sorted _ _ _ (filter_subseq _ _) Hd).
  - rewrite filter_engine_two in Hf. injection Hf as <-.
    exact (subseq_sorted _ _ _ (filter_subseq _ _) Hd).
Qed.

(* ================================================================== *)
(** * The aggregator *)

Lemma unique_In (x : string) (l : list string) : In x (unique l) <-> In x l.
Proof.
  induction l as [|y l IH]; simpl; [tauto|].
  rewrite filter_In, IH, negb_true_iff, String.eqb_neq.
  destruct (String.eqb_spec y x) as [E|N]; [subst|]; intuition congruence.
Qed.

Lemma unique_NoDup (l : list string) : NoDup (unique l).
Proof.
  induction l as [|y l IH]; simpl; constructor.
  - rewrite filter_In, String.eqb_refl. intros [_ H]. discriminate.
  - now apply NoDup_filter.
Qed.

Lemma insert_key_perm (k : string) (ks : list string) :
  Permutation (insert_key k ks) (k :: ks).
Proof.
  induction ks as [|k' ks IH]; simpl; [reflexivity|].
  destruct (String.leb k k'); [reflexivity|].
  rewrite IH. apply perm_swap.
Qed.

Lemma sort_keys_perm (ks : list string) : Permutation (sort_keys ks) ks.
Proof.
  induction ks as [|k ks IH]; simpl; [reflexivity|].
  rewrite insert_key_perm. now constructor.
Qed.

Lemma group_keys_In (k : string) (data : list DerivedRecord) :
  In k (group_keys data) <-> exists r, In r data /\ symbol (price r) = k.
Proof.
  unfold group_keys. split.
  - intros H. apply (Permutation_in _ (sort_keys_perm _)) in H.
    apply unique_In, in_map_iff in H. destruct H as (r & E & Hr). eauto.
  - intros (r & Hr & E).
    apply (Permutation_in _ (Permutation_sym (sort_keys_perm _))).
    apply unique_In, in_map_iff. eauto.
Qed.

Lemma group_keys_NoDup (data : list DerivedRecord) : NoDup (group_keys data).
Proof.
  unfold group_keys.
  apply (Permutation_NoDup (Permutation_sym (sort_keys_perm _))), unique_NoDup.
Qed.

Lemma iloc_last_app {A : Type} (l : list A) (x : A) : iloc_last (l ++ [x]) = Some x.
Proof.
  induction l as [|y l IH]; [reflexivity|].
  simpl. destruct (l ++ [x]) eqn:E; [destruct l; discriminate | exact IH].
Qed.

Lemma iloc_last_Some {A : Type} (l : list A) (x : A) :
  iloc_last l = Some x <-> exists pre, l = pre ++ [x].
Proof.
  split.
  - destruct l as [|y l] using rev_ind; [discriminate|].
    rewrite iloc_last_app. intros [= ->]. eauto.
  - intros (pre & ->). apply iloc_last_app.
Qed.

Lemma iloc_last_nonempty {A : Type} (l : list A) :
  l <> [] -> exists x, iloc_last l = Some x.
Proof.
  destruct l as [|y l] using rev_ind; [congruence|].
  intros _. exists y. apply iloc_last_app.
Qed.

(** A row that closes a filtered table splits the table at that row, with
    no row of the filter after it. *)
Lemma filter_last_split {A : Type} (f : A -> bool) (l g : list A) (x : A) :
  filter f l = g ++ [x] ->
  exists pre post, l = pre ++ x :: post /\ filter f pre = g /\ filter f post = [].
Proof.
  revert g. induction l as [|y l IH]; intros g H.
  - destruct g; discriminate.
  - simpl in H. destruct (f y) eqn:E.
    + destruct g as [|z g].
      * injection H as -> Hl. exists [], l. simpl. auto.
      * injection H as -> Hl. destruct (IH g Hl) as (pre & post & -> & Hp & Hq).
        exists (z :: pre), post. simpl. rewrite E, Hp. auto.
    + destruct (IH g H) as (pre & post & -> & Hp & Hq).
      exists (y :: pre), post. simpl. rewrite E. auto.
Qed.

Lemma sorted_by_app_last {A : Type} (key : A -> Z) (pre post : list A) (x : A) :
  sorted_by key (pre ++ x :: post) ->
  forall y, In y pre -> (key y <= key x)%Z.
Proof.
  unfold sorted_by. induction pre as [|z pre IH]; intros H y Hy; [destruct Hy|].
  simpl in H. apply StronglySorted_inv in H. destruct H as [Hs Hall].
  destruct Hy as [-> | Hy]; [|now apply IH].
  rewrite Forall_forall in Hall. apply Hall, in_elt.
Qed.

(** Every key of [groupby] has a row, so [iloc[-1]] never raises and
    [latest] has one row per key, the last row of the key's group. *)
Lemma apply_last_keys (data : list DerivedRecord) (ks : list string) :
  (forall k, In k ks -> exists r, In r data /\ symbol (price r) = k) ->
  exists l,
    apply_last (map (fun k => (k, get_group k data)) ks) = Some l /\
    map fst l = ks /\
    (forall k r, In (k, r) l -> iloc_last (get_group k data) = Some r).
Proof.
  induction ks as [|k ks IH]; intros Hks.
  - exists []. simpl. intuition.
  - destruct IH as (l & Hl & Hfst & Hlast).
    { intros k' Hk'. apply Hks. now right. }
    destruct (Hks k (or_introl eq_refl)) as (r & Hr & E).
    destruct (iloc_last_nonempty (get_group k data)) as (x & Hx).
    { intros Hnil. assert (Hin : In r (get_group k data)).
      { apply filter_In. split; [assumption | now apply String.eqb_eq]. }
      rewrite Hnil in Hin. destruct Hin. }
    exists ((k, x) :: l). simpl. rewrite Hx, Hl, Hfst.
    repeat split; try reflexivity.
    intros k' r' [[= <- <-] | Hin]; [assumption | now apply Hlast].
Qed.

Lemma latest_spec (data : list DerivedRecord) :
  exists l,
    latest data = Some l /\
    map fst l = group_keys data /\
    (forall k r, In (k, r) l -> iloc_last (get_group k data) = Some r).
Proof.
  unfold latest, groupby_symbol. apply apply_last_keys.
  intros k. apply group_keys_In.
Qed.

(** The last row of a group: a row of the key, with no row of the key after
    it in the table. *)
Lemma last_of_group (data : list DerivedRecord) (k : string) (r : DerivedRecord) :
  iloc_last (get_group k data) = Some r ->
  symbol (price r) = k /\
  exists pre post,
    data = pre ++ r :: post /\
    (forall r', In r' post -> symbol (price r') <> k).
Proof.
  intros H. apply iloc_last_Some in H. destruct H as (g & Hg).
  assert (Hin : In r (get_group k data)) by (rewrite Hg; apply in_elt).
  apply filter_In in Hin. destruct Hin as [_ Hk]. apply String.eqb_eq in Hk.
  split; [exact Hk|].
  destruct (filter_last_split _ _ _ _ Hg) as (pre & post & Hd & _ & Hpost).
  exists pre, post. split; [exact Hd|].
  intros r' Hr' E.
  assert (Hin : In r' (filter (fun r0 => String.eqb (symbol (price r0)) k) post)).
  { apply filter_In. split; [assumption | now apply String.eqb_eq]. }
  rewrite Hpost in Hin. destruct Hin.
Qed.

(* ================================================================== *)
(** * The render pass *)

Lemma metric_cards_spec (i : nat) (rows : list (string * DerivedRecord)) :
  metric_cards i rows = (map card (firstn (4 - i) rows), Ok tt).
Proof.
  revert i. induction rows as [|kr rows IH]; intros i; cbn [metric_cards].
  - now rewrite firstn_nil.
  - destruct (Nat.leb_spec 4 i) as [Hge|Hlt].
    + replace (4 - i) with 0 by lia. reflexivity.
    + unfold bind. rewrite IH. cbn [emit fst snd app].
      replace (4 - i) with (S (4 - S i)) by lia. reflexivity.
Qed.

Lemma candlesticks_spec (coins : list string) (data : list DerivedRecord) :
  candlesticks coins data =
  (map (fun coin => PlotlyChart (Candlestick coin (coin_data coin data))) coins,
   Ok tt).
Proof.
  induction coins as [|c coins IH]; simpl; [reflexivity|].
  unfold bind. rewrite IH. reflexivity.
Qed.

Lemma bind_ok {A B : Type} (es : list Element) (a : A) (k : A -> Script B) :
  bind (es, Ok a) k = (es ++ fst (k a), snd (k a)).
Proof. reflexivity. Qed.


Lemma body_empty (df : list DerivedRecord) (sel : list string) (dr : list Day) :
  filter_engine df sel dr = Some [] ->
  body df sel dr = ([Warning "No data for selected filters."], Stop).
Proof. intros H. unfold body. rewrite H. reflexivity. Qed.

(** What a pass with a non-empty selection puts on the page. *)
Lemma body_nonempty (df : list DerivedRecord) (sel : list string) (dr : list Day)
    (data : list DerivedRecord) (l : list (string * DerivedRecord)) :
  filter_engine df sel dr = Some data -> data <> [] -> latest data = Some l ->
  body df sel dr =
  (Columns 4 :: map card (firstn 4 l) ++
   Markdown "---" :: Subheader "Candlestick Chart" ::
   map (fun coin => PlotlyChart (Candlestick coin (coin_data coin data)))
     (unique (map (fun r => upper (symbol (price r))) data)) ++
   [Subheader "Price Trend Comparison"; PlotlyChart (LineChart "close" data);
    Subheader "7-Day Rolling Volatility"; PlotlyChart (LineChart "volatility_7d" data);
    Subheader "Daily High-Low Range"; PlotlyChart (BarChart "high_low_range" data);
    Markdown "---"; Subheader "Detailed Price Data";
    Dataframe display_cols data;
    DownloadButton "Download filtered data as CSV"
      (to_csv derived_columns data) "crypto_price_data.csv" "text/csv";
    Caption "Built with Streamlit • Data updates daily"],
   Ok tt).
Proof.
  intros Hf Hne Hl. unfold body. rewrite Hf.
  destruct data as [|d data0]; [congruence|].
  unfold from_option at 1. rewrite bind_ok. cbv beta iota.
  rewrite Hl. unfold from_option, ret, emit.
  repeat (rewrite bind_ok; cbn [fst snd]).
  rewrite metric_cards_spec.
  repeat (rewrite bind_ok; cbn [fst snd]).
  rewrite candlesticks_spec.
  repeat (rewrite bind_ok; cbn [fst snd]).
  cbn [app Nat.sub]. rewrite <- ?app_assoc. reflexivity.
Qed.

Lemma filter_map_all {A B : Type} (f : B -> bool) (g : A -> B) (l : list A) :
  (forall x, f (g x) = true) -> filter f (map g l) = map g l.
Proof.
  intros H. induction l as [|x l IH]; simpl; [reflexivity|].
  now rewrite H, IH.
Qed.

Lemma filter_map_none {A B : Type} (f : B -> bool) (g : A -> B) (l : list A) :
  (forall x, f (g x) = false) -> filter f (map g l) = [].
Proof.
  intros H. induction l as [|x l IH]; simpl; [reflexivity|].
  now rewrite H, IH.
Qed.

Lemma metrics_of_body (df : list DerivedRecord) (sel : list string) (dr : list Day)
    (data : list DerivedRecord) (l : list (string * DerivedRecord)) :
  filter_engine df sel dr = Some data -> latest data = Some l ->
  metrics_of (body df sel dr) = map card (firstn 4 l).
Proof.
  intros Hf Hl. destruct data as [|d data0] eqn:Hd.
  - rewrite (body_empty _ _ _ Hf). injection Hl as <-. reflexivity.
  - rewrite (body_nonempty _ _ _ _ _ Hf ltac:(discriminate) Hl).
    unfold metrics_of. cbn [fst filter is_metric].
    rewrite filter_app. cbn [filter is_metric]. rewrite filter_app.
    rewrite filter_map_all by reflexivity.
    rewrite filter_map_none by reflexivity.
    cbn [filter is_metric app]. now rewrite app_nil_r.
Qed.

Lemma downloads_of_body (df : list DerivedRecord) (sel : list string) (dr : list Day)
    (data : list DerivedRecord) :
  filter_engine df sel dr = Some data -> data <> [] ->
  downloads_of (body df sel dr) =
  [DownloadButton "Download filtered data as CSV"
     (to_csv derived_columns data) "crypto_price_data.csv" "text/csv"].
Proof.
  intros Hf Hne. destruct (latest_spec data) as (l & Hl & _).
  rewrite (body_nonempty _ _ _ _ _ Hf Hne Hl).
  unfold downloads_of. cbn [fst filter is_download].
  rewrite filter_app. cbn [filter is_download]. rewrite filter_app.
  rewrite !filter_map_none by reflexivity. reflexivity.
Qed.

Section PassFacts.
Variable sort_values : list PriceRecord -> list PriceRecord.



End PassFacts.



(** C5: on a filtered table sorted ascending by date, [latest] has exactly
    one row for every symbol of the table: a row of that symbol that no row
    of the symbol follows in the table, so that no row of the symbol has a
    greater date.  The metric cards of the pass are the cards of the first
    four rows of [latest], and of no other. *)
Theorem latest_row_per_symbol (df : list DerivedRecord) (sel : list string)
    (dr : list Day) (data : list DerivedRecord) :
  filter_engine df sel dr = Some data ->
  sorted_by (fun r => date (price r)) data ->
  exists l,
    latest data = Some l /\
    NoDup (map fst l) /\
    (forall s, In s (map fst l) <-> exists r, In r data /\ symbol (price r) = s) /\
    (forall s r, In (s, r) l ->
       symbol (price r) = s /\ In r data /\
       (forall r', In r' data -> symbol (price r') = s ->
          (date (price r') <= date (price r))%Z) /\
       (exists pre post, data = pre ++ r :: post /\
          forall r', In r' post -> symbol (price r') <> s)) /\
    metrics_of (body df sel dr) = map card (firstn 4 l) /\
    List.length (metrics_of (body df sel dr)) <= 4.
Proof.
  intros Hf Hsorted.
  destruct (latest_spec data) as (l & Hl & Hkeys & Hlast).
  exists l. split; [exact Hl|]. split; [|split; [|split; [|split]]].
  - rewrite Hkeys. apply group_keys_NoDup.
  - intros s. rewrite Hkeys. apply group_keys_In.
  - intros s r Hin. apply Hlast, last_of_group in Hin.
    destruct Hin as (Hs & pre & post & Hd & Hpost).
    split; [exact Hs|]. split; [rewrite Hd; apply in_elt|]. split.
    + intros r' Hr' Hs'. rewrite Hd in Hr'.
      apply in_app_or in Hr'. destruct Hr' as [Hpre | [<- | Hq]].
      * rewrite Hd in Hsorted.
        now apply (sorted_by_app_last (fun r0 => date (price r0)) pre post r).
      * lia.
      * exfalso. now apply (Hpost r').
    + now exists pre, post.
  - now apply metrics_of_body with (data := data).
  - rewrite (metrics_of_body _ _ _ _ _ Hf Hl), length_map, length_firstn. lia.
Qed.

Lemma latest_row_per_symbol_witness :
  filter_engine (derive mixed_case) ["BTC"; "ETH"]%string [1; 2]%Z
    = Some (derive mixed_case) /\
  sorted_by (fun r => date (price r)) (derive mixed_case) /\
  exists l,
    latest (derive mixed_case) = Some l /\
    map fst l = ["BTC"; "ETH"; "btc"]%string /\
    metrics_of (body (derive mixed_case) ["BTC"; "ETH"]%string [1; 2]%Z)
      = map card (firstn 4 l).
Proof.
  assert (Hf : filter_engine (derive mixed_case)
                 ["BTC"; "ETH"]%string [1; 2]%Z
               = Some (derive mixed_case)) by reflexivity.
  assert (Hs : sorted_by (fun r => date (price r)) (derive mixed_case)).
  { unfold sorted_by. vm_compute derive.
    repeat constructor; vm_compute; discriminate. }
  split; [exact Hf | split; [exact Hs|]].
  destruct (latest_row_per_symbol _ _ _ _ Hf Hs) as (l & Hl & _ & _ & _ & Hm & _).
  exists l. split; [exact Hl | split; [|exact Hm]].
  vm_compute in Hl. injection Hl as <-. reflexivity.
Defined.

(** C9: [groupby('symbol')] compares the symbols as they are written.  Two
    rows of the filtered table whose symbols differ, be it in letter case
    only, are in two groups and [latest] has one row for each spelling,
    although the filter accepts both rows for the same selections and the
    candlestick loop puts both in the chart of their uppercased symbol. *)
Theorem latest_groups_by_raw_symbol (data : list DerivedRecord) (r1 r2 : DerivedRecord) :
  In r1 data -> In r2 data ->
  symbol (price r1) <> symbol (price r2) ->
  upper (symbol (price r1)) = upper (symbol (price r2)) ->
  (exists l x1 x2,
     latest data = Some l /\ NoDup (map fst l) /\
     In (symbol (price r1), x1) l /\ In (symbol (price r2), x2) l /\
     symbol (price x1) = symbol (price r1) /\
     symbol (price x2) = symbol (price r2) /\ x1 <> x2) /\
  (forall sel,
     isin (upper (symbol (price r1))) (map upper sel) =
     isin (upper (symbol (price r2))) (map upper sel)) /\
  In r1 (coin_data (upper (symbol (price r1))) data) /\
  In r2 (coin_data (upper (symbol (price r1))) data).
Proof.
  intros H1 H2 Hne Hup.
  destruct (latest_spec data) as (l & Hl & Hkeys & Hlast).
  assert (Hrow : forall r, In r data -> exists x,
            In (symbol (price r), x) l /\ symbol (price x) = symbol (price r)).
  { intros r Hr.
    assert (Hk : In (symbol (price r)) (map fst l)).
    { rewrite Hkeys. apply group_keys_In. eauto. }
    apply in_map_iff in Hk. destruct Hk as ([k x] & Hk & Hin). simpl in Hk. subst k.
    exists x. split; [exact Hin|].
    apply Hlast, last_of_group in Hin. apply Hin. }
  destruct (Hrow r1 H1) as (x1 & Hx1 & Hs1).
  destruct (Hrow r2 H2) as (x2 & Hx2 & Hs2).
  split; [|split; [|split]].
  - exists l, x1, x2. repeat split; try assumption.
    + rewrite Hkeys. apply group_keys_NoDup.
    + intros ->. congruence.
  - intros sel. now rewrite Hup.
  - apply filter_In. split; [assumption | apply String.eqb_refl].
  - apply filter_In. split; [assumption|]. rewrite Hup. apply String.eqb_refl.
Qed.

Lemma latest_groups_by_raw_symbol_witness :
  upper "btc" = upper "BTC" /\
  exists l x1 x2,
    latest (derive mixed_case) = Some l /\
    In ("btc"%string, x1) l /\ In ("BTC"%string, x2) l /\ x1 <> x2.
Proof.
  split; [reflexivity|].
  destruct (latest_groups_by_raw_symbol (derive mixed_case)
              (mkDerived (quote "btc" 1 100) nan nan 0 100)
              (mkDerived (quote "BTC" 2 105) ((105 / 50 - 1) * 100) nan 0 105))
    as ((l & x1 & x2 & Hl & _ & Hx1 & Hx2 & _ & _ & Hne) & _).
  - left. reflexivity.
  - right. right. left. reflexivity.
  - discriminate.
  - reflexivity.
  - exists l, x1, x2. auto.
Defined.

Lemma derived_columns_eq :
  derived_columns =
  input_columns ++ ["change_pct"; "volatility_7d"; "high_low_range"; "typical_price"]%string.
Proof. reflexivity. Qed.

(** C6 (as amended): a pass whose filter leaves rows has one download
    button, with the file name [crypto_price_data.csv] and the MIME type
    [text/csv]; its CSV has every column of the filtered table, the eight
    input columns followed by [change_pct], [volatility_7d],
    [high_low_range] and [typical_price], one record for each row in table
    order and a cell for every column. *)
Theorem download_exports_all_columns (df : list DerivedRecord) (sel : list string)
    (dr : list Day) (data : list DerivedRecord) :
  filter_engine df sel dr = Some data ->
  data <> [] ->
  downloads_of (body df sel dr) =
    [DownloadButton "Download filtered data as CSV"
       (to_csv derived_columns data) "crypto_price_data.csv" "text/csv"] /\
  header (to_csv derived_columns data) =
    input_columns ++
    ["change_pct"; "volatility_7d"; "high_low_range"; "typical_price"]%string /\
  records (to_csv derived_columns data) =
    map (fun r => map (cell r) (header (to_csv derived_columns data))) data /\
  (forall r name, In name derived_columns -> cell r name <> None).
Proof.
  intros Hf Hne. split; [now apply downloads_of_body|].
  split; [reflexivity | split; [reflexivity|]].
  intros r name Hin. rewrite derived_columns_eq in Hin.
  cbn in Hin.
  repeat (destruct Hin as [<- | Hin]; [discriminate|]). destruct Hin.
Qed.

Lemma download_exports_all_columns_witness :
  filter_engine (derive mixed_case) ["BTC"%string] [1; 2]%Z
    = Some (filter (in_selection ["BTC"%string] 1%Z 2%Z) (derive mixed_case)) /\
  filter (in_selection ["BTC"%string] 1%Z 2%Z) (derive mixed_case) <> [] /\
  downloads_of (body (derive mixed_case) ["BTC"%string] [1; 2]%Z) =
    [DownloadButton "Download filtered data as CSV"
       (to_csv derived_columns
          (filter (in_selection ["BTC"%string] 1%Z 2%Z) (derive mixed_case)))
       "crypto_price_data.csv" "text/csv"].
Proof.
  assert (Hf : filter_engine (derive mixed_case) ["BTC"%string] [1; 2]%Z
    = Some (filter (in_selection ["BTC"%string] 1%Z 2%Z) (derive mixed_case)))
    by apply filter_engine_two.
  assert (Hne : filter (in_selection ["BTC"%string] 1%Z 2%Z)
                  (derive mixed_case) <> [])
    by (vm_compute; discriminate).
  split; [exact Hf | split; [exact Hne|]].
  apply (download_exports_all_columns _ _ _ _ Hf Hne).
Defined.

(** C6 (as stated) fails: the CSV of the download button of a pass over
    three rows has twelve columns, not the eight columns of the input. *)
Lemma download_input_columns_counterexample :
  exists csv,
    downloads_of
      (render_pass sort_by_date (ret mixed_case) ["BTC"%string] [1; 2]%Z)
      = [DownloadButton "Download filtered data as CSV" csv
           "crypto_price_data.csv" "text/csv"] /\
    header csv <> input_columns.
Proof.
  eexists. split.
  - vm_compute. reflexivity.
  - vm_compute. intros H. apply (f_equal (@List.length string)) in H.
    discriminate.
Qed.

(* ================================================================== *)
(** * Further properties of the script *)

(** ** The two price columns of lines 44-45 *)

Lemma derive_price_columns (df : list PriceRecord) :
  map price (derive df) = df /\
  map high_low_range (derive df) =
    map (fun r => (high r - low r)%float) df /\
  map typical_price (derive df) =
    map (fun r => ((high r + low r + close r) / 3)%float) df.
Proof.
  unfold derive.
  destruct (with_columns_spec df
    (mul_scalar (pct_change (map close df)) 100)
    (mul_scalar (rolling_std 7 (pct_change (map close df))) 100)
    (zip_with PrimFloat.sub (map high df) (map low df))
    (div_scalar
       (zip_with PrimFloat.add
          (zip_with PrimFloat.add (map high df) (map low df))
          (map close df)) 3)) as (E1 & _ & _ & E4 & E5).
  - unfold mul_scalar. now rewrite length_map, pct_change_length, length_map.
  - unfold mul_scalar.
    now rewrite length_map, rolling_std_length, pct_change_length, length_map.
  - rewrite zip_with_length, !length_map. lia.
  - unfold div_scalar. rewrite length_map, !zip_with_length, !length_map. lia.
  - split; [exact E1|]. split.
    + rewrite E4. apply zip_with_map.
    + rewrite E5. unfold div_scalar.
      rewrite !zip_with_map, map_map. reflexivity.
Qed.

(** X1: the prepared table has one row for every loaded row, in the same
    order, and in every row [high_low_range] is [high - low] and
    [typical_price] is [(high + low + close) / 3] of that very row. *)
Theorem range_and_typical_price_of_row
    (df : list PriceRecord) :
  List.length (derive df) = List.length df /\
  (forall i d, nth_error (derive df) i = Some d ->
     nth_error df i = Some (price d) /\
     high_low_range d = (high (price d) - low (price d))%float /\
     typical_price d =
       ((high (price d) + low (price d) + close (price d)) / 3)%float).
Proof.
  destruct (derive_price_columns df) as (Ep & Eh & Et).
  split.
  - rewrite <- Ep at 2. now rewrite length_map.
  - intros i d Hd.
    assert (Hp : nth_error df i = Some (price d)).
    { rewrite <- Ep. now apply map_nth_error. }
    split; [exact Hp|]. split.
    + apply (map_nth_error high_low_range) in Hd.
      rewrite Eh, nth_error_map, Hp in Hd. now injection Hd as <-.
    + apply (map_nth_error typical_price) in Hd.
      rewrite Et, nth_error_map, Hp in Hd. now injection Hd as <-.
Qed.

(** ** Loading (lines 19-37) *)

Section LoadFacts.
Variable sort_values : list PriceRecord -> list PriceRecord.

Lemma sidebar_of_loaded (shown : list Element) (loaded : list PriceRecord) :
  sidebar sort_values (shown, Ok loaded) =
  (Title "Crypto Price Dashboard: Top 500 Cryptocurrencies by market capitalization 2024/25"
   :: Markdown "### Real-time OHLC Analysis • Trends • Volatility • Performance"
   :: shown ++ fst (controls sort_values loaded),
   snd (controls sort_values loaded)).
Proof.
  unfold sidebar, emit. rewrite !bind_ok. cbn [fst snd app].
  unfold bind. cbn [fst snd]. destruct (snd (controls sort_values loaded)); reflexivity.
Qed.

Lemma render_pass_of_sidebar (load : Script (list PriceRecord))
    (sel : list string) (dr : list Day) :
  render_pass sort_values load sel dr =
  bind (sidebar sort_values load) (fun df => body df sel dr).
Proof. reflexivity. Qed.
End LoadFacts.

Section CacheFacts.
Variable recorded : list Element -> list Element.

(** A call on a filled cache returns the stored table and leaves the cache
    as it is. *)
Lemma load_data_hit (df : list PriceRecord) (kept : list Element)
    (file uploaded : option (list PriceRecord)) :
  load_data recorded (Some (df, kept)) file uploaded =
  ((kept, Ok df), Some (df, kept)).
Proof. reflexivity. Qed.

(** A call that returns a table leaves it in the cache. *)
Lemma load_data_stores (cache : Cache) (file uploaded : option (list PriceRecord))
    (es : list Element) (df : list PriceRecord) :
  fst (load_data recorded cache file uploaded) = (es, Ok df) ->
  exists kept, snd (load_data recorded cache file uploaded) = Some (df, kept).
Proof.
  destruct cache as [[df0 kept]|].
  - rewrite load_data_hit. cbn [fst snd]. intros [= _ ->]. now exists kept.
  - unfold load_data. cbn [fst snd]. intros H. rewrite H. cbn [fst snd].
    now exists (recorded es).
Qed.

Lemma load_passes_hit (inputs : list (option (list PriceRecord) * option (list PriceRecord)))
    (df : list PriceRecord) (kept : list Element) (j : nat)
    (x : Script (list PriceRecord)) :
  nth_error (load_passes recorded (Some (df, kept)) inputs) j = Some x ->
  x = (kept, Ok df).
Proof.
  revert j. induction inputs as [|[file uploaded] inputs IH]; intros j H.
  - destruct j; discriminate.
  - cbn [load_passes] in H. rewrite load_data_hit in H. cbn [fst snd] in H.
    destruct j as [|j]; [now injection H as <- | now apply (IH j)].
Qed.

(** Once a pass has got a table, every later pass gets that table. *)
Lemma load_passes_memo (inputs : list (option (list PriceRecord) * option (list PriceRecord)))
    (cache : Cache) (i j : nat) (es es' : list Element) (df : list PriceRecord)
    (r : Result (list PriceRecord)) :
  i <= j ->
  nth_error (load_passes recorded cache inputs) i = Some (es, Ok df) ->
  nth_error (load_passes recorded cache inputs) j = Some (es', r) ->
  r = Ok df.
Proof.
  revert cache i j. induction inputs as [|[file uploaded] inputs IH];
    intros cache i j Hij Hi Hj.
  - destruct i; discriminate.
  - cbn [load_passes] in Hi, Hj. destruct i as [|i].
    + cbn [nth_error] in Hi. injection Hi as Hi.
      destruct j as [|j].
      * cbn [nth_error] in Hj. rewrite Hi in Hj. now injection Hj as _ <-.
      * cbn [nth_error] in Hj.
        destruct (load_data_stores _ _ _ _ _ Hi) as (kept & Hc).
        rewrite Hc in Hj. apply load_passes_hit in Hj. now injection Hj as _ ->.
    + destruct j as [|j]; [lia|]. cbn [nth_error] in Hi, Hj.
      apply (IH (snd (load_data recorded cache file uploaded)) i j);
        [lia | exact Hi | exact Hj].
Qed.

(** The table a pass gets is the one of the first pass that had a file or
    an upload: before that pass there was neither, and what the file and
    the uploader hold after it is not looked at. *)
Lemma load_passes_first (inputs : list (option (list PriceRecord) * option (list PriceRecord)))
    (j : nat) (es : list Element) (df : list PriceRecord) :
  nth_error (load_passes recorded None inputs) j = Some (es, Ok df) ->
  exists i file uploaded,
    i <= j /\ nth_error inputs i = Some (file, uploaded) /\
    (file = Some df \/ (file = None /\ uploaded = Some df)) /\
    (forall k, k < i -> nth_error inputs k = Some (None, None)).
Proof.
  revert j. induction inputs as [|[file uploaded] inputs IH]; intros j H.
  - destruct j; discriminate.
  - cbn [load_passes] in H.
    destruct file as [f|]; [|destruct uploaded as [u|]].
    + exists 0, (Some f), uploaded.
      split; [lia|]. split; [reflexivity|]. split; [|intros k Hk; lia].
      left. f_equal. destruct j as [|j].
      * cbn in H. now injection H as _ ->.
      * cbn [nth_error load_data load_data_body ret fst snd] in H.
        apply load_passes_hit in H. now injection H as _ ->.
    + exists 0, None, (Some u).
      split; [lia|]. split; [reflexivity|]. split; [|intros k Hk; lia].
      right. split; [reflexivity|]. f_equal. destruct j as [|j].
      * cbn in H. now injection H as _ ->.
      * cbn in H. apply load_passes_hit in H. now injection H as _ ->.
    + destruct j as [|j]; [discriminate|].
      cbn [nth_error] in H. change (snd (load_data recorded None None None))
        with (@None (list PriceRecord * list Element)) in H.
      destruct (IH j H) as (i & file & uploaded & Hij & Hi & Hsrc & Hbefore).
      exists (S i), file, uploaded.
      split; [lia|]. split; [exact Hi|]. split; [exact Hsrc|].
      intros [|k] Hk; [reflexivity|]. apply Hbefore. lia.
Qed.
End CacheFacts.

(** X2: [load_data] through its cache.  On an empty cache, without a
    readable default file and without an upload, the pass shows Streamlit's
    warning about a widget in a cached function, the uploader and the
    request to upload, stops there and leaves the cache empty.  A readable
    default file is returned whatever the uploader holds, with nothing
    shown, and is stored; without it an uploaded table is returned after the
    warning and the uploader.  On a filled cache the stored table is
    returned whatever the file and the uploader hold, so once a pass has got
    a table every later pass gets the same table: over passes that start on
    an empty cache, the table of a pass is the file, or else the upload, of
    the first pass that had one of the two. *)
Theorem load_data_source_priority
    (recorded : list Element -> list Element)
    (sort_values : list PriceRecord -> list PriceRecord)
    (sel : list string) (dr : list Day) :
  app_py sort_values recorded None None None sel dr =
    (([Title "Crypto Price Dashboard: Top 500 Cryptocurrencies by market capitalization 2024/25";
       Markdown "### Real-time OHLC Analysis • Trends • Volatility • Performance";
       ExceptionBox "CachedWidgetWarning";
       FileUploader "Upload your crypto data (CSV)";
       Info "Upload your crypto_data.csv to begin"], Stop), None) /\
  (forall loaded uploaded,
     load_data recorded None (Some loaded) uploaded =
       (([], Ok loaded), Some (loaded, recorded []))) /\
  (forall loaded,
     fst (load_data recorded None None (Some loaded)) =
       ([ExceptionBox "CachedWidgetWarning";
         FileUploader "Upload your crypto data (CSV)"], Ok loaded)) /\
  (forall df kept file uploaded,
     load_data recorded (Some (df, kept)) file uploaded =
       ((kept, Ok df), Some (df, kept))) /\
  (forall inputs cache i j es es' df r,
     i <= j ->
     nth_error (load_passes recorded cache inputs) i = Some (es, Ok df) ->
     nth_error (load_passes recorded cache inputs) j = Some (es', r) ->
     r = Ok df) /\
  (forall inputs j es df,
     nth_error (load_passes recorded None inputs) j = Some (es, Ok df) ->
     exists i file uploaded,
       i <= j /\ nth_error inputs i = Some (file, uploaded) /\
       (file = Some df \/ (file = None /\ uploaded = Some df)) /\
       (forall k, k < i -> nth_error inputs k = Some (None, None))).
Proof.
  split; [reflexivity|]. split; [reflexivity|]. split; [reflexivity|].
  split; [reflexivity|]. split.
  - intros inputs cache i j es es' df r. apply load_passes_memo.
  - apply load_passes_first.
Qed.

(** X3: a loaded table without rows ends the pass with an exception after
    the title, the subtitle and what the loading has shown: the latest date
    of a table without rows is not a date (line 47), so neither the success
    line nor any control of the sidebar is shown. *)
Theorem empty_table_raises
    (sort_values : list PriceRecord -> list PriceRecord)
    (shown : list Element) (loaded : list PriceRecord)
    (sel : list string) (dr : list Day) :
  sort_values loaded = [] ->
  render_pass sort_values (shown, Ok loaded) sel dr =
    (Title "Crypto Price Dashboard: Top 500 Cryptocurrencies by market capitalization 2024/25"
     :: Markdown "### Real-time OHLC Analysis • Trends • Volatility • Performance"
     :: shown,
     Raise).
Proof.
  intros H. rewrite render_pass_of_sidebar, sidebar_of_loaded.
  unfold controls, prepare. rewrite H. cbn. now rewrite app_nil_r.
Qed.

Lemma empty_table_raises_witness :
  sort_by_date [] = [] /\
  render_pass sort_by_date (ret []) ["BTC"%string] [1; 2]%Z =
    ([Title "Crypto Price Dashboard: Top 500 Cryptocurrencies by market capitalization 2024/25";
      Markdown "### Real-time OHLC Analysis • Trends • Volatility • Performance"],
     Raise).
Proof.
  split; [reflexivity|].
  apply (empty_table_raises sort_by_date [] []). reflexivity.
Defined.

(** ** How a pass ends (lines 67-76) *)

Lemma filter_engine_None (df : list DerivedRecord) (sel : list string) (dr : list Day) :
  filter_engine df sel dr = None <-> dr = [].
Proof.
  destruct dr as [|a [|b rest]].
  - split; reflexivity.
  - rewrite filter_engine_one. split; discriminate.
  - rewrite filter_engine_two. split; discriminate.
Qed.

Lemma body_raises (df : list DerivedRecord) (sel : list string) (dr : list Day) :
  filter_engine df sel dr = None -> body df sel dr = ([], Raise).
Proof. intros H. unfold body. rewrite H. reflexivity. Qed.

Lemma body_completes (df : list DerivedRecord) (sel : list string) (dr : list Day)
    (data : list DerivedRecord) :
  filter_engine df sel dr = Some data -> data <> [] ->
  snd (body df sel dr) = Ok tt.
Proof.
  intros Hf Hne. destruct (latest_spec data) as (l & Hl & _).
  now rewrite (body_nonempty _ _ _ _ _ Hf Hne Hl).
Qed.

Lemma filter_none {A : Type} (f : A -> bool) (l : list A) :
  (forall x, In x l -> f x = false) -> filter f l = [].
Proof.
  induction l as [|x l IH]; intros H; simpl; [reflexivity|].
  rewrite (H x (or_introl eq_refl)). apply IH. intros y Hy. apply H. now right.
Qed.

(** X4: the part of the pass after the sidebar ends in one of three ways,
    decided by the filter alone.  An empty date range raises before anything
    is shown; a range with a date and no selected row shows the warning and
    stops; in every other case the pass runs to its end.  With no coin
    selected no row is selected, whatever the dates. *)
Theorem body_outcome (df : list DerivedRecord) (sel : list string) (dr : list Day) :
  (dr = [] /\ body df sel dr = ([], Raise)) \/
  (dr <> [] /\ filter_engine df sel dr = Some [] /\
   body df sel dr = ([Warning "No data for selected filters."], Stop)) \/
  (dr <> [] /\ (exists d data, filter_engine df sel dr = Some (d :: data)) /\
   snd (body df sel dr) = Ok tt).
Proof.
  destruct (filter_engine df sel dr) as [[|d data]|] eqn:Hf.
  - right. left. split; [|split; [reflexivity | now apply body_empty]].
    intros ->. discriminate.
  - right. right. split; [intros ->; discriminate|]. split; [eauto|].
    apply (body_completes _ _ _ _ Hf). discriminate.
  - left. split; [now apply filter_engine_None in Hf | now apply body_raises].
Qed.

(** X5: with no coin selected the engine selects no row for every range
    with a date, so the pass shows the warning and stops. *)
Theorem empty_selection_warns (df : list DerivedRecord) (a : Day) (rest : list Day) :
  filter_engine df [] (a :: rest) = Some [] /\
  body df [] (a :: rest) = ([Warning "No data for selected filters."], Stop).
Proof.
  assert (H : filter_engine df [] (a :: rest) = Some []).
  { destruct rest as [|b rest].
    - rewrite filter_engine_one. f_equal. apply filter_none. reflexivity.
    - rewrite filter_engine_two. f_equal. apply filter_none. reflexivity. }
  split; [exact H | now apply body_empty].
Qed.



(** ** What a completed pass shows (lines 79-166) *)

(** X7: a pass whose filter selects rows runs to its end and shows one
    metric card for each of the first four raw symbols of the selection, one
    candlestick chart for each uppercased symbol and three more charts, one
    table and one download button, and no warning. *)
Theorem completed_pass_elements (df : list DerivedRecord) (sel : list string)
    (dr : list Day) (data : list DerivedRecord) :
  filter_engine df sel dr = Some data ->
  data <> [] ->
  snd (body df sel dr) = Ok tt /\
  List.length (filter is_metric (fst (body df sel dr))) =
    Nat.min 4 (List.length (group_keys data)) /\
  List.length (filter is_chart (fst (body df sel dr))) =
    List.length (coins_of data) + 3 /\
  List.length (filter is_table (fst (body df sel dr))) = 1 /\
  List.length (filter is_download (fst (body df sel dr))) = 1 /\
  filter is_warning (fst (body df sel dr)) = [].
Proof.
  intros Hf Hne. destruct (latest_spec data) as (l & Hl & Hkeys & _).
  rewrite (body_nonempty _ _ _ _ _ Hf Hne Hl). cbn [fst snd].
  split; [reflexivity|].
  assert (Hlen : List.length (firstn 4 l) = Nat.min 4 (List.length (group_keys data))).
  { rewrite length_firstn, <- Hkeys, length_map. reflexivity. }
  repeat split.
  - cbn [filter is_metric]. rewrite filter_app. cbn [filter is_metric].
    rewrite filter_app, filter_map_all, filter_map_none by reflexivity.
    cbn [filter is_metric app]. now rewrite app_nil_r, length_map.
  - cbn [filter is_chart]. rewrite filter_app. cbn [filter is_chart].
    rewrite filter_app, filter_map_none, filter_map_all by reflexivity.
    cbn [filter is_chart app]. rewrite length_app, length_map.
    unfold coins_of. simpl. lia.
  - cbn [filter is_table]. rewrite filter_app. cbn [filter is_table].
    rewrite filter_app, !filter_map_none by reflexivity. reflexivity.
  - cbn [filter is_download]. rewrite filter_app. cbn [filter is_download].
    rewrite filter_app, !filter_map_none by reflexivity. reflexivity.
  - cbn [filter is_warning]. rewrite filter_app. cbn [filter is_warning].
    rewrite filter_app, !filter_map_none by reflexivity. reflexivity.
Qed.

Lemma completed_pass_elements_witness :
  filter_engine (derive mixed_case) ["BTC"; "ETH"]%string [1; 2]%Z
    = Some (derive mixed_case) /\
  derive mixed_case <> [] /\
  List.length (filter is_metric
    (fst (body (derive mixed_case) ["BTC"; "ETH"]%string [1; 2]%Z))) = 3 /\
  List.length (filter is_chart
    (fst (body (derive mixed_case) ["BTC"; "ETH"]%string [1; 2]%Z))) = 5.
Proof.
  assert (Hf : filter_engine (derive mixed_case)
                 ["BTC"; "ETH"]%string [1; 2]%Z
               = Some (derive mixed_case)) by reflexivity.
  assert (Hne : derive mixed_case <> []) by discriminate.
  split; [exact Hf | split; [exact Hne|]].
  destruct (completed_pass_elements _ _ _ _ Hf Hne) as (_ & Hm & Hc & _).
  rewrite Hm, Hc. split; reflexivity.
Defined.

(** ** Order of the metric cards (lines 79-82) *)

Lemma leb_total (a b : string) : String.leb a b = false -> String.leb b a = true.
Proof.
  unfold String.leb. rewrite (String.compare_antisym b a).
  destruct (String.compare a b); simpl; congruence.
Qed.

Lemma insert_key_hd (k a : string) (ks : list string) :
  HdRel symbol_le a ks -> symbol_le a k -> HdRel symbol_le a (insert_key k ks).
Proof.
  intros H Hak. destruct ks as [|k' ks]; simpl; [now constructor|].
  destruct (String.leb k k'); constructor; [assumption|].
  now inversion H.
Qed.

Lemma insert_key_sorted (k : string) (ks : list string) :
  Sorted symbol_le ks -> Sorted symbol_le (insert_key k ks).
Proof.
  induction ks as [|k' ks IH]; simpl; intros H.
  - repeat constructor.
  - destruct (String.leb k k') eqn:E.
    + constructor; [assumption | now constructor].
    + apply Sorted_inv in H. destruct H as [Hs Hhd].
      constructor; [now apply IH|].
      apply insert_key_hd; [assumption | now apply leb_total].
Qed.

Lemma sort_keys_sorted (ks : list string) : Sorted symbol_le (sort_keys ks).
Proof.
  induction ks as [|k ks IH]; simpl; [constructor | now apply insert_key_sorted].
Qed.

(** X8: the rows of [latest], and with them the metric cards, come in
    ascending order of the raw symbol, not in the order the symbols appear
    in the table; there are as many as the table has distinct raw symbols,
    and every card carries the uppercased symbol, the close and the
    percentage change of the last row of its symbol. *)
Theorem latest_in_symbol_order (data : list DerivedRecord) :
  exists l,
    latest data = Some l /\
    Sorted symbol_le (map fst l) /\
    Permutation (map fst l) (unique (map (fun r => symbol (price r)) data)) /\
    (forall k r, In (k, r) l ->
       iloc_last (get_group k data) = Some r /\
       card (k, r) = Metric (upper (symbol (price r))) (close (price r)) (change_pct r)).
Proof.
  destruct (latest_spec data) as (l & Hl & Hkeys & Hlast).
  exists l. split; [exact Hl|]. rewrite Hkeys. unfold group_keys.
  split; [apply sort_keys_sorted|]. split; [apply sort_keys_perm|].
  intros k r Hin. pose proof (Hlast k r Hin) as Hr. split; [exact Hr|].
  apply last_of_group in Hr. destruct Hr as (<- & _). reflexivity.
Qed.

(** ** The candlestick charts (lines 96-113) *)

Lemma list_sum_map_add {A : Type} (f g : A -> nat) (l : list A) :
  list_sum (map (fun x => f x + g x) l) = list_sum (map f l) + list_sum (map g l).
Proof. induction l as [|x l IH]; simpl; [reflexivity | lia]. Qed.

Lemma list_sum_indicator (k : string) (ks : list string) :
  NoDup ks -> In k ks ->
  list_sum (map (fun c => if String.eqb k c then 1 else 0) ks) = 1.
Proof.
  induction ks as [|c ks IH]; intros Hnd Hin; [destruct Hin|].
  inversion Hnd as [|? ? Hc Hks]; subst. simpl.
  destruct (String.eqb_spec k c) as [->|Hne].
  - assert (Hz : list_sum (map (fun c0 => if String.eqb c c0 then 1 else 0) ks) = 0).
    { clear IH Hnd Hks Hin. induction ks as [|d ks IH]; simpl; [reflexivity|].
      destruct (String.eqb_spec c d) as [->|_].
      - exfalso. apply Hc. now left.
      - apply IH. intros H. apply Hc. now right. }
    rewrite Hz. reflexivity.
  - destruct Hin as [->|Hin]; [congruence|]. now rewrite IH.
Qed.

Lemma group_sizes_sum {A : Type} (key : A -> string) (ks : list string) (l : list A) :
  NoDup ks -> (forall x, In x l -> In (key x) ks) ->
  list_sum (map (fun c => List.length (filter (fun x => String.eqb (key x) c) l)) ks)
  = List.length l.
Proof.
  intros Hnd. induction l as [|x l IH]; intros Hin.
  - simpl. clear Hnd Hin. induction ks as [|c ks IHk]; simpl; auto.
  - rewrite (map_ext _
      (fun c => (if String.eqb (key x) c then 1 else 0)
                + List.length (filter (fun y => String.eqb (key y) c) l))).
    + rewrite list_sum_map_add, list_sum_indicator, IH; auto.
      * intros y Hy. apply Hin. now right.
      * apply Hin. now left.
    + intros c. simpl. destruct (String.eqb (key x) c); reflexivity.
Qed.

(** X9: the candlestick loop draws one chart for every uppercased symbol of
    the selection, in order of first appearance and none twice.  No chart is
    empty, each holds rows of the selection in table order, a row is in the
    chart of its own uppercased symbol and in no other, and the charts
    together hold as many rows as the selection. *)
Theorem candlestick_charts_partition (data : list DerivedRecord) :
  candlesticks (coins_of data) data =
    (map (candlestick_of data) (coins_of data), Ok tt) /\
  NoDup (coins_of data) /\
  (forall c, In c (coins_of data) ->
     coin_data c data <> [] /\ subseq (coin_data c data) data) /\
  (forall r c, In r (coin_data c data) <->
     In r data /\ c = upper (symbol (price r))) /\
  (forall r, In r data -> In (upper (symbol (price r))) (coins_of data)) /\
  list_sum (map (fun c => List.length (coin_data c data)) (coins_of data))
    = List.length data.
Proof.
  assert (Hmem : forall r c, In r (coin_data c data) <->
            In r data /\ c = upper (symbol (price r))).
  { intros r c. unfold coin_data. rewrite filter_In, String.eqb_eq.
    intuition congruence. }
  assert (Hin : forall r, In r data -> In (upper (symbol (price r))) (coins_of data)).
  { intros r Hr. unfold coins_of. apply unique_In.
    apply (in_map (fun r0 => upper (symbol (price r0)))). exact Hr. }
  split; [apply candlesticks_spec|]. split; [apply unique_NoDup|].
  split; [|split; [exact Hmem | split; [exact Hin|]]].
  - intros c Hc. split; [|apply filter_subseq].
    unfold coins_of in Hc. apply unique_In, in_map_iff in Hc.
    destruct Hc as (r & Hr & Hd). intros Hnil.
    assert (H : In r (coin_data c data)) by (apply Hmem; auto).
    rewrite Hnil in H. destruct H.
  - unfold coin_data.
    apply (group_sizes_sum (fun r => upper (symbol (price r)))).
    + apply unique_NoDup.
    + exact Hin.
Qed.

(** ** The sidebar controls (lines 47-64) *)

Lemma fold_max_spec (l : list Z) (x : Z) :
  In (fold_left Z.max l x) (x :: l) /\
  forall y, In y (x :: l) -> (y <= fold_left Z.max l x)%Z.
Proof.
  revert x. induction l as [|a l IH]; intros x; simpl.
  - split; [now left | intros y [<- | []]; lia].
  - destruct (IH (Z.max x a)) as [Hin Hle]. split.
    + destruct Hin as [Hm | Hin]; [|now right; right].
      rewrite <- Hm. destruct (Z.max_spec x a) as [[_ ->] | [_ ->]]; auto.
    + intros y [E | [E | Hy]].
      * specialize (Hle (Z.max x a) (or_introl eq_refl)). lia.
      * specialize (Hle (Z.max x a) (or_introl eq_refl)). lia.
      * apply Hle. now right.
Qed.

Lemma fold_min_spec (l : list Z) (x : Z) :
  In (fold_left Z.min l x) (x :: l) /\
  forall y, In y (x :: l) -> (fold_left Z.min l x <= y)%Z.
Proof.
  revert x. induction l as [|a l IH]; intros x; simpl.
  - split; [now left | intros y [<- | []]; lia].
  - destruct (IH (Z.min x a)) as [Hin Hle]. split.
    + destruct Hin as [Hm | Hin]; [|now right; right].
      rewrite <- Hm. destruct (Z.min_spec x a) as [[_ ->] | [_ ->]]; auto.
    + intros y [E | [E | Hy]].
      * specialize (Hle (Z.min x a) (or_introl eq_refl)). lia.
      * specialize (Hle (Z.min x a) (or_introl eq_refl)). lia.
      * apply Hle. now right.
Qed.

Lemma dt_date_mono (s t : Timestamp) : (s <= t)%Z -> (dt_date s <= dt_date t)%Z.
Proof. intros H. unfold dt_date, ns_per_day. apply Z.div_le_mono; lia. Qed.

(** X10: the sidebar is reached only with a table that has rows.  It then
    shows the number of rows and the latest day, the coin selector with the
    uppercased symbols of the table, the first of them preselected, and the
    date picker from the first to the last day of the table: every row lies
    between the two days, and each of the two is the day of a row. *)
Theorem controls_of_table
    (sort_values : list PriceRecord -> list PriceRecord) (loaded : list PriceRecord)
    (es : list Element) (df : list DerivedRecord) :
  controls sort_values loaded = (es, Ok df) ->
  df = prepare sort_values loaded /\ df <> [] /\
  exists mn mx,
    es = [Success (List.length df) mx; SidebarHeader "Filters";
          Multiselect "Select Cryptocurrencies" (coins_of df) (firstn 1 (coins_of df));
          DateInput "Date Range" (mn, mx) mn mx] /\
    (forall r, In r df -> (mn <= row_day r <= mx)%Z) /\
    (exists r, In r df /\ row_day r = mn) /\
    (exists r, In r df /\ row_day r = mx).
Proof.
  unfold controls. set (df0 := prepare sort_values loaded).
  destruct df0 as [|d ds] eqn:Hdf; [discriminate|].
  cbn [map series_max series_min from_option].
  unfold emit, ret. repeat (rewrite bind_ok; cbn [fst snd app]).
  intros [= <- <-]. split; [reflexivity|]. split; [discriminate|].
  set (dates := map (fun r => date (price r)) ds).
  destruct (fold_max_spec dates (date (price d))) as [Hmi Hmx].
  destruct (fold_min_spec dates (date (price d))) as [Hni Hmn].
  exists (dt_date (fold_left Z.min dates (date (price d)))),
         (dt_date (fold_left Z.max dates (date (price d)))).
  split; [reflexivity|].
  assert (Hd : forall r, In r (d :: ds) ->
            In (date (price r)) (date (price d) :: dates)).
  { intros r Hr. apply (in_map (fun r0 => date (price r0)) (d :: ds) r Hr). }
  assert (Hback : forall t, In t (date (price d) :: dates) ->
            exists r, In r (d :: ds) /\ date (price r) = t).
  { intros t Ht.
    apply (in_map_iff (fun r0 => date (price r0)) (d :: ds) t) in Ht.
    destruct Ht as (r & E & Hr). eauto. }
  split; [|split].
  - intros r Hr. unfold row_day. split; apply dt_date_mono.
    + now apply Hmn, Hd.
    + now apply Hmx, Hd.
  - destruct (Hback _ Hni) as (r & Hr & E). exists r. split; [exact Hr|].
    unfold row_day. now rewrite E.
  - destruct (Hback _ Hmi) as (r & Hr & E). exists r. split; [exact Hr|].
    unfold row_day. now rewrite E.
Qed.

Lemma controls_of_table_witness :
  controls sort_by_date mixed_case =
    (fst (controls sort_by_date mixed_case),
     Ok (prepare sort_by_date mixed_case)) /\
  exists mn mx,
    fst (controls sort_by_date mixed_case) =
      [Success 3 mx; SidebarHeader "Filters";
       Multiselect "Select Cryptocurrencies" ["BTC"; "ETH"]%string ["BTC"%string];
       DateInput "Date Range" (mn, mx) mn mx].
Proof.
  split; [reflexivity|].
  destruct (controls_of_table sort_by_date mixed_case _ _ eq_refl)
    as (_ & _ & mn & mx & Hes & _).
  exists mn, mx. exact Hes.
Defined.

(** ** The default selection (lines 53-72) *)

Lemma upper_ascii_idem (c : ascii) : upper_ascii (upper_ascii c) = upper_ascii c.
Proof.
  destruct c as [b0 b1 b2 b3 b4 b5 b6 b7].
  destruct b0, b1, b2, b3, b4, b5, b6, b7; reflexivity.
Qed.

Lemma upper_idem (s : string) : upper (upper s) = upper s.
Proof.
  induction s as [|c s IH]; simpl; [reflexivity|].
  now rewrite upper_ascii_idem, IH.
Qed.

(** X11: with the preselected coin and the full date range of the picker,
    the engine returns all rows of the first row's uppercased symbol, so the
    first view of a table is never the warning: the pass runs to its end.
    Any range from the first to the last day leaves the dates untested. *)
Theorem default_selection_completes (df : list DerivedRecord) (r0 : DerivedRecord)
    (rest : list DerivedRecord) (mn mx : Day) :
  df = r0 :: rest ->
  (forall r, In r df -> (mn <= row_day r <= mx)%Z) ->
  filter_engine df (firstn 1 (coins_of df)) [mn; mx] =
    Some (coin_data (upper (symbol (price r0))) df) /\
  In r0 (coin_data (upper (symbol (price r0))) df) /\
  snd (body df (firstn 1 (coins_of df)) [mn; mx]) = Ok tt.
Proof.
  intros -> Hb.
  assert (Hf : filter_engine (r0 :: rest) (firstn 1 (coins_of (r0 :: rest))) [mn; mx]
               = Some (coin_data (upper (symbol (price r0))) (r0 :: rest))).
  { rewrite filter_engine_two. f_equal. unfold coin_data.
    apply filter_ext_in. intros r Hr.
    unfold in_selection, coins_of. cbn [map unique firstn isin existsb].
    rewrite upper_idem, orb_false_r.
    destruct (Hb r Hr) as [H1 H2].
    apply Z.leb_le in H1. apply Z.leb_le in H2. rewrite H1, H2.
    now rewrite !andb_true_r. }
  assert (Hin : In r0 (coin_data (upper (symbol (price r0))) (r0 :: rest))).
  { apply filter_In. split; [now left | apply String.eqb_refl]. }
  split; [exact Hf | split; [exact Hin|]].
  apply (body_completes _ _ _ _ Hf). intros Hnil. rewrite Hnil in Hin. destruct Hin.
Qed.

Lemma default_selection_completes_witness :
  (forall r, In r (derive mixed_case) -> (1 <= row_day r <= 2)%Z) /\
  filter_engine (derive mixed_case)
    (firstn 1 (coins_of (derive mixed_case))) [1; 2]%Z =
    Some (coin_data "BTC" (derive mixed_case)).
Proof.
  assert (Hb : forall r, In r (derive mixed_case) ->
                 (1 <= row_day r <= 2)%Z).
  { intros r Hr. vm_compute in Hr.
    destruct Hr as [<- | [<- | [<- | []]]]; vm_compute; split; discriminate. }
  split; [exact Hb|].
  destruct (default_selection_completes (derive mixed_case)
              (mkDerived (quote "btc" 1 100) nan nan 0 100)
              (skipn 1 (derive mixed_case)) 1%Z 2%Z eq_refl Hb)
    as (Hf & _).
  exact Hf.
Defined.

(** ** Ranges and selections (lines 67-72) *)

(** X12: a range of the start date alone selects the rows that the same
    start with any end date not before the last day of the table selects. *)
Theorem open_range_as_closed (df : list DerivedRecord) (sel : list string) (a b : Day) :
  (forall r, In r df -> (row_day r <= b)%Z) ->
  filter_engine df sel [a] = filter_engine df sel [a; b].
Proof.
  intros Hb. rewrite filter_engine_one, filter_engine_two. f_equal.
  apply filter_ext_in. intros r Hr. unfold in_selection, in_selection_from.
  pose proof (Hb r Hr) as H. apply Z.leb_le in H. rewrite H.
  now rewrite andb_true_r.
Qed.

Lemma open_range_as_closed_witness :
  (forall r, In r (derive mixed_case) -> (row_day r <= 2)%Z) /\
  filter_engine (derive mixed_case) ["btc"%string] [2]%Z =
  filter_engine (derive mixed_case) ["btc"%string] [2; 2]%Z.
Proof.
  assert (Hb : forall r, In r (derive mixed_case) -> (row_day r <= 2)%Z).
  { intros r Hr. vm_compute in Hr.
    destruct Hr as [<- | [<- | [<- | []]]]; vm_compute; discriminate. }
  split; [exact Hb|].
  apply (open_range_as_closed (derive mixed_case) ["btc"%string] 2%Z 2%Z Hb).
Defined.

(** The engine is a row filter whose test does not depend on the table. *)
Lemma filter_engine_as_filter (sel : list string) (dr : list Day) :
  dr <> [] ->
  exists P, forall df, filter_engine df sel dr = Some (filter P df).
Proof.
  destruct dr as [|a [|b rest]]; intros H; [congruence | |].
  - exists (in_selection_from sel a). intros df. apply filter_engine_one.
  - exists (in_selection sel a b). intros df. apply filter_engine_two.
Qed.

Lemma filter_comm {A : Type} (f g : A -> bool) (l : list A) :
  filter f (filter g l) = filter g (filter f l).
Proof.
  induction l as [|x l IH]; simpl; [reflexivity|].
  destruct (f x) eqn:Ef, (g x) eqn:Eg; simpl; rewrite ?Ef, ?Eg, IH; reflexivity.
Qed.

(** X13: two selections applied one after the other give the same rows in
    either order, and an empty range raises in both orders. *)
Theorem filter_engine_commutes (df : list DerivedRecord)
    (sel1 sel2 : list string) (dr1 dr2 : list Day) :
  then_filter (filter_engine df sel1 dr1) sel2 dr2 =
  then_filter (filter_engine df sel2 dr2) sel1 dr1.
Proof.
  destruct dr1 as [|a1 r1].
  - simpl. destruct (filter_engine df sel2 dr2); reflexivity.
  - destruct dr2 as [|a2 r2].
    + simpl. destruct (filter_engine df sel1 (a1 :: r1)); reflexivity.
    + destruct (filter_engine_as_filter sel1 (a1 :: r1)) as (P & HP); [discriminate|].
      destruct (filter_engine_as_filter sel2 (a2 :: r2)) as (Q & HQ); [discriminate|].
      rewrite (HP df), (HQ df). simpl. rewrite HP, HQ. f_equal. apply filter_comm.
Qed.

Lemma isin_ext (x : string) (l1 l2 : list string) :
  (forall c, In c l1 <-> In c l2) -> isin x l1 = isin x l2.
Proof.
  intros H. destruct (isin x l1) eqn:E1, (isin x l2) eqn:E2; try reflexivity.
  - apply isin_In, H, isin_In in E1. congruence.
  - apply isin_In, H, isin_In in E2. congruence.
Qed.

(** X14: the rows the engine returns depend on the selected coins only
    through the set of their uppercased spellings: letter case, order and
    repetition of the selected coins make no difference. *)
Theorem selection_up_to_case (df : list DerivedRecord) (sel1 sel2 : list string)
    (dr : list Day) :
  (forall c, In c (map upper sel1) <-> In c (map upper sel2)) ->
  filter_engine df sel1 dr = filter_engine df sel2 dr.
Proof.
  intros H. destruct dr as [|a [|b rest]]; [reflexivity | |].
  - rewrite !filter_engine_one. f_equal. apply filter_ext. intros r.
    unfold in_selection_from. now rewrite (isin_ext _ _ _ H).
  - rewrite !filter_engine_two. f_equal. apply filter_ext. intros r.
    unfold in_selection. now rewrite (isin_ext _ _ _ H).
Qed.

Lemma selection_up_to_case_witness :
  (forall c, In c (map upper ["btc"; "ETH"]%string) <->
             In c (map upper ["eth"; "BTC"; "Btc"]%string)) /\
  filter_engine (derive mixed_case) ["btc"; "ETH"]%string [1; 2]%Z =
  filter_engine (derive mixed_case) ["eth"; "BTC"; "Btc"]%string [1; 2]%Z.
Proof.
  assert (H : forall c, In c (map upper ["btc"; "ETH"]%string) <->
                        In c (map upper ["eth"; "BTC"; "Btc"]%string)).
  { intros c. simpl. tauto. }
  split; [exact H|].
  apply (selection_up_to_case (derive mixed_case) _ _ [1; 2]%Z H).
Defined.

(** ** A zero close and the rolling volatility (lines 42-43) *)

Lemma frac_of_zero_not_finite (x z : float) :
  is_zero z = true -> is_finite (x / z - 1)%float = false.
Proof.
  intros Hz. destruct (is_zero_SF z Hz) as [s Hs].
  rewrite is_finite_SF, sub_spec, div_spec, Hs.
  change (Prim2SF 1) with (S754_finite false 4503599627370496 (-52)).
  destruct (Prim2SF x) as [sx | sx | | sx m e]; reflexivity.
Qed.

Lemma forallb_false_nth {A : Type} (f : A -> bool) (l : list A) (k : nat) (v : A) :
  nth_error l k = Some v -> f v = false -> forallb f l = false.
Proof.
  revert k. induction l as [|a l IH]; intros [|k] H Hv; try discriminate.
  - injection H as ->. simpl. now rewrite Hv.
  - simpl. rewrite (IH k H Hv). apply andb_false_r.
Qed.

(** X15: on a table without missing close, a zero close in row [i] leaves
    [volatility_7d] null in each of the seven rows that follow it: the
    change of row [i + 1] is not finite and every window that holds it has
    fewer than seven observations. *)
Theorem zero_close_nulls_volatility
    (df : list PriceRecord) (i j : nat) (p : PriceRecord) :
  no_missing (map close df) = true ->
  nth_error df i = Some p ->
  is_zero (close p) = true ->
  i < j <= i + 7 ->
  j < List.length df ->
  nth_error (map volatility_7d (derive df)) j = Some nan.
Proof.
  intros Hn Hp Hz Hij Hj.
  destruct (derive_columns df) as (_ & _ & ->).
  unfold mul_scalar. rewrite nth_error_map.
  assert (Hlen : List.length (pct_change (map close df)) = List.length df)
    by now rewrite pct_change_length, length_map.
  destruct (Nat.lt_ge_cases j 7) as [Hlow | Hhigh].
  - rewrite (rolling_std_head_nan _ j); [reflexivity | | assumption | lia].
    apply pct_change_first. destruct df; [simpl in Hj; lia | discriminate].
  - destruct (rolling_std_window_nan (pct_change (map close df)) j) as (_ & Hnan);
      [assumption | lia |].
    destruct (nth_error df (S i)) as [r|] eqn:Hr;
      [|apply nth_error_None in Hr; lia].
    assert (Hpct : nth_error (pct_change (map close df)) (S i)
                   = Some (close r / close p - 1)%float).
    { apply pct_change_next; [assumption | |]; now apply map_nth_error. }
    assert (Hw : nth_error (firstn 7 (skipn (j - 6) (pct_change (map close df))))
                   (S i - (j - 6)) = Some (close r / close p - 1)%float).
    { rewrite nth_error_firstn, nth_error_skipn.
      replace (j - 6 + (S i - (j - 6))) with (S i) by lia.
      destruct (Nat.ltb_spec (S i - (j - 6)) 7); [exact Hpct | lia]. }
    rewrite Hnan; [reflexivity|].
    exact (forallb_false_nth _ _ _ _ Hw (frac_of_zero_not_finite _ _ Hz)).
Qed.

Lemma zero_close_nulls_volatility_witness :
  no_missing (map close ten_days_with_zero) = true /\
  nth_error ten_days_with_zero 1 = Some (quote "BTC" 2 0) /\
  is_zero (close (quote "BTC" 2 0)) = true /\
  nth_error (map volatility_7d (derive ten_days_with_zero)) 8 = Some nan /\
  (exists v, nth_error (map volatility_7d (derive ten_days_with_zero)) 9
             = Some v /\ is_nan v = false).
Proof.
  split; [reflexivity | split; [reflexivity | split; [reflexivity|]]].
  split.
  - apply (zero_close_nulls_volatility ten_days_with_zero 1 8
             (quote "BTC" 2 0)); try reflexivity; simpl; lia.
  - eexists. split; [vm_compute; reflexivity | reflexivity].
Defined.

(** ** Date order through the pass (lines 41, 72, 79) *)

Lemma subseq_map {A B : Type} (f : A -> B) (l1 l2 : list A) :
  subseq l1 l2 -> subseq (map f l1) (map f l2).
Proof. induction 1; simpl; now constructor. Qed.

(** X17: when [sort_values] returns the table in date order, what the
    engine selects of the prepared table is in date order too, for every
    selection: the selected rows are rows of the prepared table in their
    order, and their prices are rows of the sorted table in their order. *)
Theorem selection_in_date_order
    (sort_values : list PriceRecord -> list PriceRecord) (loaded : list PriceRecord)
    (sel : list string) (dr : list Day) (data : list DerivedRecord) :
  date_sorted (sort_values loaded) ->
  filter_engine (prepare sort_values loaded) sel dr = Some data ->
  sorted_by (fun r => date (price r)) data /\
  subseq data (prepare sort_values loaded) /\
  subseq (map price data) (sort_values loaded).
Proof.
  intros Hs Hf. unfold prepare in *.
  split; [now apply (filter_engine_sorted (sort_values loaded) sel dr)|].
  assert (Hsub : subseq data (derive (sort_values loaded))).
  { destruct dr as [|a [|b rest]]; [discriminate | |].
    - rewrite filter_engine_one in Hf. injection Hf as <-. apply filter_subseq.
    - rewrite filter_engine_two in Hf. injection Hf as <-. apply filter_subseq. }
  split; [exact Hsub|].
  destruct (derive_columns (sort_values loaded)) as (Ep & _).
  rewrite <- Ep. now apply subseq_map.
Qed.

Lemma selection_in_date_order_witness :
  date_sorted (sort_by_date mixed_case) /\
  filter_engine (prepare sort_by_date mixed_case) ["btc"%string] [1; 2]%Z
    = Some (filter (in_selection ["btc"%string] 1%Z 2%Z)
              (prepare sort_by_date mixed_case)) /\
  sorted_by (fun r => date (price r))
    (filter (in_selection ["btc"%string] 1%Z 2%Z)
       (prepare sort_by_date mixed_case)).
Proof.
  assert (Hs : date_sorted (sort_by_date mixed_case))
    by apply sort_by_date_sorted.
  assert (Hf : filter_engine (prepare sort_by_date mixed_case)
                 ["btc"%string] [1; 2]%Z
               = Some (filter (in_selection ["btc"%string] 1%Z 2%Z)
                         (prepare sort_by_date mixed_case)))
    by apply filter_engine_two.
  split; [exact Hs | split; [exact Hf|]].
  apply (selection_in_date_order sort_by_date mixed_case _ _ _ Hs Hf).
Defined.
